(** * Blacklist update-merge: a shallow embedding of [build_blacklist.py]

    The development follows the Python source function by function.

    - Strings are [string]; a character is a code point below 256, and the
      built-ins [str.lower], [str.strip], [in], [str.split] and
      [str.rsplit] are written out on that range in [Module Str].
    - A [BlacklistEntry] object that lives in [full_blacklist] is identified
      by its position in that list: the list is only ever appended to, so a
      position is a stable object identity.  An attribute assignment
      [entry.username = new] is the in-place list update [<[i:=_]>].
    - The epoch lists hold references: either a reference to a store entry
      (the very object [get_or_append] returned) or a [RenameEntry] object
      that only the epoch list knows about.
    - Methods that read or mutate [self] live in a state-and-exception monad
      [M]; the state survives a raised exception, as the object does in
      Python. *)

From Stdlib Require Import ZArith NArith Ascii String.
From stdpp Require Import base option list sorting strings gmap.

(** ** Python string built-ins *)

Module Str.

Definition nl : string := String "010"%char "".
Definition tab : string := String "009"%char "".

(** [str.lower] on one code point: the upper-case letters below 256 are
    A-Z and the Latin-1 capitals U+00C0-U+00DE without the sign U+00D7. *)
Definition lower_char (c : ascii) : ascii :=
  let n := N_of_ascii c in
  if ((65 <=? n) && (n <=? 90) || (192 <=? n) && (n <=? 222) && negb (n =? 215))%N
  then ascii_of_N (n + 32) else c.

Fixpoint lower (s : string) : string :=
  match s with
  | "" => ""
  | String c s' => String (lower_char c) (lower s')
  end.

(** The characters [str.strip] removes: TAB, LF, VT, FF, CR, the
    separators U+001C-U+001F, SPACE, NEL and NBSP. *)
Definition isspace (c : ascii) : bool :=
  let n := N_of_ascii c in
  ((9 <=? n) && (n <=? 13) || (28 <=? n) && (n <=? 32) || (n =? 133) || (n =? 160))%N.

Fixpoint lstrip (s : string) : string :=
  match s with
  | "" => ""
  | String c s' => if isspace c then lstrip s' else s
  end.

Fixpoint rstrip (s : string) : string :=
  match s with
  | "" => ""
  | String c s' =>
      match rstrip s' with
      | "" => if isspace c then "" else String c ""
      | r => String c r
      end
  end.

Definition strip (s : string) : string := rstrip (lstrip s).

(** [sub in s] *)
Fixpoint contains (sub s : string) : bool :=
  String.prefix sub s ||
  match s with
  | "" => false
  | String _ s' => contains sub s'
  end.

(** [s.split(sep)] for a non-empty [sep]: cut at every occurrence of
    [sep], scanning from the left; [skip] counts the characters of a
    matched separator still to be dropped, [cur] is the piece being
    read. *)
Fixpoint split_go (sep : string) (skip : nat) (cur : string) (s : string)
  : list string :=
  match s with
  | "" => [cur]
  | String c s' =>
      match skip with
      | S k => split_go sep k cur s'
      | O =>
          if String.prefix sep s
          then cur :: split_go sep (String.length sep - 1) "" s'
          else split_go sep 0 (cur +:+ String c "") s'
      end
  end.

Definition split (sep s : string) : list string := split_go sep 0 "" s.

(** The cut at the last occurrence of the character [sep], if any. *)
Fixpoint rcut (sep : ascii) (s : string) : option (string * string) :=
  match s with
  | "" => None
  | String c s' =>
      match rcut sep s' with
      | Some (u, v) => Some (String c u, v)
      | None => if decide (c = sep) then Some ("", s') else None
      end
  end.

(** [s.rsplit(sep, 1)] for a one-character [sep]. *)
Definition rsplit1 (sep : ascii) (s : string) : list string :=
  match rcut sep s with
  | Some (u, v) => [u; v]
  | None => [s]
  end.

(** Truth value of a string: [bool(s)]. *)
Definition truthy (s : string) : bool :=
  match s with "" => false | _ => true end.

End Str.

(** ** Data model *)

Record BlacklistEntry := mkBlacklistEntry {
  username : string;
  category : string;
}.

(** [class RenameEntry(BlacklistEntry)]: the inherited fields and
    [old_username]. *)
Record RenameEntry := mkRenameEntry {
  base : BlacklistEntry;
  old_username : string;
}.

(** An object as its methods see it: the dynamic class and the fields. *)
Inductive Object :=
| Plain (e : BlacklistEntry)
| Renamed (r : RenameEntry).

(** What an epoch list holds. *)
Inductive Ref :=
| StoreRef (i : nat)
| Fresh (r : RenameEntry).

Record Blacklist := mkBlacklist {
  current_update : list Ref;
  previous_update : list Ref;
  full_blacklist : list BlacklistEntry;
}.

#[export] Instance BlacklistEntry_eq_dec : EqDecision BlacklistEntry.
Proof. solve_decision. Defined.
#[export] Instance RenameEntry_eq_dec : EqDecision RenameEntry.
Proof. solve_decision. Defined.
#[export] Instance Object_eq_dec : EqDecision Object.
Proof. solve_decision. Defined.
#[export] Instance Ref_eq_dec : EqDecision Ref.
Proof. solve_decision. Defined.

Definition set_username (new : string) (e : BlacklistEntry) : BlacklistEntry :=
  {| username := new; category := category e |}.

Definition set_category (c : string) (e : BlacklistEntry) : BlacklistEntry :=
  {| username := username e; category := c |}.

Definition set_full_blacklist (l : list BlacklistEntry) (bl : Blacklist) : Blacklist :=
  {| current_update := current_update bl;
     previous_update := previous_update bl;
     full_blacklist := l |}.

(** Reading through a reference to a store entry.  References are only
    made by the store's own lookups, so the default is never reached
    (lemmas [get_entry_lt] and [Blacklist_init_refs_valid]). *)
Definition deref (bl : Blacklist) (i : nat) : BlacklistEntry :=
  default (mkBlacklistEntry "" "") (full_blacklist bl !! i).

Definition observe (bl : Blacklist) (r : Ref) : Object :=
  match r with
  | StoreRef i => Plain (deref bl i)
  | Fresh r => Renamed r
  end.

Definition obj_entry (o : Object) : BlacklistEntry :=
  match o with
  | Plain e => e
  | Renamed r => base r
  end.

(** ** Exceptions and the monad of methods *)

Inductive Exception :=
| ValueError (msg : string)
| RuntimeError (msg : string).

(** What a failing run leaves behind: the text printed just before the
    [raise], and the exception. *)
Record Failure := mkFailure {
  printed : string;
  raised : Exception;
}.

Inductive result (A : Type) :=
| Return (a : A)
| Raise (f : Failure).
Arguments Return {A} a.
Arguments Raise {A} f.

Definition M (A : Type) : Type := Blacklist -> result A * Blacklist.

#[export] Instance M_ret : MRet M := fun A (a : A) bl => (Return a, bl).

#[export] Instance M_bind : MBind M := fun A B (k : A -> M B) (m : M A) bl =>
  match m bl with
  | (Return a, bl') => k a bl'
  | (Raise f, bl') => (Raise f, bl')
  end.

Definition raise {A} (f : Failure) : M A := fun bl => (Raise f, bl).

(** The exception of a failed tuple assignment [a, b = parts]. *)
Definition unpack_error (got : nat) : Failure :=
  {| printed := "";
     raised := ValueError
       (if decide (2 < got) then "too many values to unpack (expected 2)"
        else "not enough values to unpack (expected 2, got "
             +:+ (if decide (got = 0) then "0" else "1") +:+ ")") |}.

(** ** The store: [Blacklist] methods *)

Definition same_name (name : string) (e : BlacklistEntry) : Prop :=
  Str.lower (username e) = Str.lower name.

#[export] Instance same_name_dec name e : Decision (same_name name e).
Proof. unfold same_name. apply _. Defined.

(** [get_entry]: the first entry whose lower-cased username is the
    lower-cased argument, as a reference together with the object. *)
Definition get_entry (name : string) (bl : Blacklist) : option (nat * BlacklistEntry) :=
  list_find (same_name name) (full_blacklist bl).

Definition get_or_append (name cat : string) : M nat :=
  fun bl =>
    match get_entry name bl with
    | Some (i, e) =>
        (Return i, set_full_blacklist (<[i := set_category cat e]> (full_blacklist bl)) bl)
    | None =>
        (Return (length (full_blacklist bl)),
         set_full_blacklist (full_blacklist bl ++ [mkBlacklistEntry name cat]) bl)
    end.

Definition update_username_failure (old new : string) : Failure :=
  {| printed := "You asked us to update usernames from " +:+ old +:+ " to " +:+ new
                +:+ ", but " +:+ old +:+ " isn't in the blacklist. "
                +:+ "Please submit this as a new entry instead." +:+ Str.nl;
     raised := RuntimeError "Unable to process username change." |}.

Definition update_username (old new : string) : M nat :=
  fun bl =>
    match get_entry new bl with
    | Some (i, _) => (Return i, bl)
    | None =>
        match get_entry old bl with
        | Some (i, e) =>
            (Return i, set_full_blacklist (<[i := set_username new e]> (full_blacklist bl)) bl)
        | None => (Raise (update_username_failure old new), bl)
        end
    end.

Definition add_to_updates (entry : Ref) (target : string) : M unit :=
  fun bl =>
    if Str.contains "previous" target
    then (Return tt, {| current_update := current_update bl;
                        previous_update := previous_update bl ++ [entry];
                        full_blacklist := full_blacklist bl |})
    else (Return tt, {| current_update := current_update bl ++ [entry];
                        previous_update := previous_update bl;
                        full_blacklist := full_blacklist bl |}).

Definition ref_same_name (bl : Blacklist) (name : string) (r : Ref) : Prop :=
  same_name name (obj_entry (observe bl r)).

#[export] Instance ref_same_name_dec bl name r : Decision (ref_same_name bl name r).
Proof. unfold ref_same_name. apply _. Defined.

Definition get_entry_from_current (name : string) (bl : Blacklist) : option Ref :=
  snd <$> list_find (ref_same_name bl name) (current_update bl).

Definition get_entry_from_previous (name : string) (bl : Blacklist) : option Ref :=
  snd <$> list_find (ref_same_name bl name) (previous_update bl).

Definition format_username (name : string) (bl : Blacklist) : string :=
  match get_entry_from_current name bl with
  | Some _ => Str.nl +:+ "**" +:+ name +:+ "**" +:+ Str.nl
  | None =>
      match get_entry_from_previous name bl with
      | Some _ => Str.nl +:+ "*" +:+ name +:+ "*" +:+ Str.nl
      | None => name
      end
  end.

(** ** The changelog loop of [Blacklist.__init__] *)

Definition input_line_failure (line : string) : Failure :=
  {| printed := "Unable to process non-blank line in input:" +:+ Str.nl +:+ line +:+ Str.nl;
     raised := RuntimeError "Unable to process input line." |}.

(** The body of [for line in f], on the raw line; the result is the value
    of [target] after the iteration. *)
Definition process_line (raw : string) (target : string) : M string :=
  let line := Str.strip raw in
  match line with
  | "" => mret target
  | String c0 _ =>
      if decide (c0 = "#"%char) then
        mret (if Str.contains "previous" (Str.lower line) then "previous" else target)
      else if Str.contains " -> " line then
        match Str.split " -> " line with
        | [old; new] =>
            entry ← update_username old new;
            e ← (fun bl => (Return (deref bl entry), bl));
            add_to_updates (Fresh {| base := e; old_username := old |}) target;;
            mret target
        | parts => raise (unpack_error (length parts))
        end
      else
        match Str.rsplit1 " " line with
        | [name; cat] =>
            if Str.truthy name && Str.truthy cat then
              new_entry ← get_or_append name cat;
              add_to_updates (StoreRef new_entry) target;;
              mret target
            else raise (input_line_failure line)
        | parts => raise (unpack_error (length parts))
        end
  end.

Fixpoint process_lines (lines : list string) (target : string) : M string :=
  match lines with
  | [] => mret target
  | raw :: rest => target' ← process_line raw target; process_lines rest target'
  end.

(** [save_blacklist]: the new content of the data file. *)
Definition save_blacklist (bl : Blacklist) : list BlacklistEntry :=
  full_blacklist bl.

(** [Blacklist()]: [data] is the content of the data file and [input]
    the lines of the changelog; the result is the constructed object, or
    the failure, and the content of the data file afterwards. *)
Definition Blacklist_init (data : list BlacklistEntry) (input : list string)
  : result Blacklist * list BlacklistEntry :=
  let self := {| current_update := []; previous_update := []; full_blacklist := data |} in
  match process_lines input "current" self with
  | (Return _, self') => (Return self', save_blacklist self')
  | (Raise f, _) => (Raise f, data)
  end.

(** ** The "new entries" document *)

Definition CATEGORY_SORTING : gmap string Z :=
  <["Scam" := 100%Z]> (<["RMT" := 200%Z]> (<["GW2Exchange" := 300%Z]>
  (<["Other" := 400%Z]> (<["Unknown" := 500%Z]> ∅)))).

Definition BlacklistEntry_sortkey (e : BlacklistEntry) : Z :=
  match CATEGORY_SORTING !! category e with
  | Some k => k
  | None => 500%Z
  end.

Definition RenameEntry_sortkey (r : RenameEntry) : Z :=
  (BlacklistEntry_sortkey (base r) + 10)%Z.

Definition sortkey (o : Object) : Z :=
  match o with
  | Plain e => BlacklistEntry_sortkey e
  | Renamed r => RenameEntry_sortkey r
  end.

Definition to_new_str (o : Object) : string :=
  match o with
  | Plain e => username e +:+ Str.tab +:+ category e
  | Renamed r =>
      "[ " +:+ username (base r) +:+ Str.tab +:+ category (base r)
      +:+ " - Renamed from " +:+ old_username r +:+ " ]"
  end.

(** [sorted(l, key=key)]: the stable sort by ascending key.  An element
    is placed before the first later element whose key is not smaller. *)
Fixpoint sorted_insert {A} (key : A -> Z) (x : A) (l : list A) : list A :=
  match l with
  | [] => [x]
  | y :: l' =>
      if (key x <=? key y)%Z then x :: l
      else y :: sorted_insert key x l'
  end.

Fixpoint sorted {A} (key : A -> Z) (l : list A) : list A :=
  match l with
  | [] => []
  | x :: l' => sorted_insert key x (sorted key l')
  end.

(** The objects of an epoch list in the order [get_names] writes them. *)
Definition names_order (bl : Blacklist) (use_list : list Ref) : list Object :=
  sorted sortkey (observe bl <$> use_list).

Definition get_names (bl : Blacklist) (use_list : list Ref) : string :=
  foldl (fun res entry => res +:+ to_new_str entry +:+ Str.nl) "" (names_order bl use_list).

Definition get_current_names (bl : Blacklist) : string :=
  get_names bl (current_update bl).

Definition get_previous_names (bl : Blacklist) : string :=
  get_names bl (previous_update bl).

(** ** Properties claimed of the store *)

(** No two entries of the store have the same lower-cased username. *)
Definition unique_usernames (bl : Blacklist) : Prop :=
  NoDup ((fun e => Str.lower (username e)) <$> full_blacklist bl).

(** Some entry of [l] has the username [name], case-insensitively. *)
Definition has_name (name : string) (l : list BlacklistEntry) : Prop :=
  ∃ e, e ∈ l ∧ same_name name e.

(** Every store reference held by an epoch list points into the store. *)
Definition refs_valid (bl : Blacklist) : Prop :=
  ∀ i, StoreRef i ∈ (current_update bl ++ previous_update bl) →
       i < length (full_blacklist bl).

(** ** Definitions used in the statements *)

Definition store_of (l : list BlacklistEntry) : Blacklist :=
  {| current_update := []; previous_update := []; full_blacklist := l |}.

Definition bob_robert : Blacklist :=
  store_of [mkBlacklistEntry "Bob" "Scam"; mkBlacklistEntry "Robert" "RMT"].

Definition only_bob : Blacklist := store_of [mkBlacklistEntry "Bob" "Scam"].

(** The first sentence of C9 as the specification words it: on every
    store, the two upserts leave exactly one entry for the username, and
    it reads "Alice" / "RMT". *)
Definition upsert_alice_on_every_store : Prop :=
  ∀ bl r1 bl1 r2 bl2,
    get_or_append "Alice" "Scam" bl = (r1, bl1) →
    get_or_append "ALICE" "RMT" bl1 = (r2, bl2) →
    filter (same_name "Alice") (full_blacklist bl2) = [mkBlacklistEntry "Alice" "RMT"].

(** Some record of the epoch list [l] shows the username [name],
    case-insensitively. *)
Definition in_epoch (bl : Blacklist) (name : string) (l : list Ref) : Prop :=
  ∃ r, r ∈ l ∧ ref_same_name bl name r.

(** The state after the changelog [Bob Scam], [# previous], [bob RMT],
    [Carl RMT] on an empty data file. *)
Definition bob_in_both : Blacklist :=
  {| current_update := [StoreRef 0];
     previous_update := [StoreRef 0; StoreRef 1];
     full_blacklist := [mkBlacklistEntry "Bob" "RMT"; mkBlacklistEntry "Carl" "RMT"] |}.

Definition key_le {A} (key : A → Z) (a b : A) : Prop := (key a ≤ key b)%Z.

Definition obj_category (o : Object) : string := category (obj_entry o).

(** The state after the changelog [Zed Other], [Bob Scam], [Carl RMT],
    [Bob -> Robert], [Al Scam] on an empty data file. *)
Definition five_changes : Blacklist :=
  {| current_update :=
       [StoreRef 0; StoreRef 1; StoreRef 2;
        Fresh {| base := mkBlacklistEntry "Robert" "Scam"; old_username := "Bob" |};
        StoreRef 3];
     previous_update := [];
     full_blacklist :=
       [mkBlacklistEntry "Zed" "Other"; mkBlacklistEntry "Robert" "Scam";
        mkBlacklistEntry "Carl" "RMT"; mkBlacklistEntry "Al" "Scam"] |}.

(** The two directive bodies of [process_line], named for the proofs. *)
Definition rename_directive (old new target : string) : M string :=
  entry ← update_username old new;
  e ← (fun bl => (Return (deref bl entry), bl));
  add_to_updates (Fresh {| base := e; old_username := old |}) target;;
  mret target.

Definition add_directive (name cat target : string) : M string :=
  new_entry ← get_or_append name cat;
  add_to_updates (StoreRef new_entry) target;;
  mret target.

(** What [process_line] does with a raw line. *)
Inductive line_shape (raw : string) (target : string) (bl : Blacklist) : Prop :=
| shape_blank :
    Str.strip raw = "" →
    process_line raw target bl = (Return target, bl) →
    line_shape raw target bl
| shape_comment s :
    Str.strip raw = String "#" s →
    process_line raw target bl =
      (Return (if Str.contains "previous" (Str.lower (Str.strip raw))
               then "previous" else target), bl) →
    line_shape raw target bl
| shape_rename old new :
    Str.contains " -> " (Str.strip raw) = true →
    Str.split " -> " (Str.strip raw) = [old; new] →
    process_line raw target bl = rename_directive old new target bl →
    line_shape raw target bl
| shape_rename_unpack :
    Str.contains " -> " (Str.strip raw) = true →
    length (Str.split " -> " (Str.strip raw)) ≠ 2 →
    process_line raw target bl =
      (Raise (unpack_error (length (Str.split " -> " (Str.strip raw)))), bl) →
    line_shape raw target bl
| shape_add name cat :
    Str.contains " -> " (Str.strip raw) = false →
    Str.rsplit1 " " (Str.strip raw) = [name; cat] →
    name ≠ "" → cat ≠ "" →
    process_line raw target bl = add_directive name cat target bl →
    line_shape raw target bl
| shape_add_unpack :
    Str.strip raw ≠ "" →
    Str.contains " -> " (Str.strip raw) = false →
    Str.contains " " (Str.strip raw) = false →
    process_line raw target bl = (Raise (unpack_error 1), bl) →
    line_shape raw target bl.

(** The object after [add_to_updates(entry, target)]. *)
Definition recorded (entry : Ref) (target : string) (bl : Blacklist) : Blacklist :=
  snd (add_to_updates entry target bl).

(** [bl'] has the epoch records of [bl], in place, and a store at least
    as long. *)
Definition grows (bl bl' : Blacklist) : Prop :=
  current_update bl `prefix_of` current_update bl' ∧
  previous_update bl `prefix_of` previous_update bl' ∧
  length (full_blacklist bl) ≤ length (full_blacklist bl').

(** What the user sees of a failed run: the printed text, then the
    exception as the interpreter reports it. *)
Definition report (f : Failure) : string :=
  printed f +:+
  match raised f with
  | ValueError msg => "ValueError: " +:+ msg
  | RuntimeError msg => "RuntimeError: " +:+ msg
  end.


(** The run [Bob Scam], [Bob -> Robert] on an empty data file: the record
    of the first line is the store entry itself, and the rename shows
    through it. *)
Definition after_bob_scam : Blacklist :=
  {| current_update := [StoreRef 0]; previous_update := [];
     full_blacklist := [mkBlacklistEntry "Bob" "Scam"] |}.

Definition after_bob_robert : Blacklist :=
  {| current_update :=
       [StoreRef 0;
        Fresh {| base := mkBlacklistEntry "Robert" "Scam"; old_username := "Bob" |}];
     previous_update := [];
     full_blacklist := [mkBlacklistEntry "Robert" "Scam"] |}.

(** ** The data file: [to_json] and the keyword construction of entries *)

(** A JSON object of the data file, with string values. *)
Definition to_json (e : BlacklistEntry) : gmap string string :=
  <["username" := username e]> (<["category" := category e]> ∅).

(** The dataclass constructor [BlacklistEntry] called with the keys
    of the object [x] as keywords.  [None] is the [TypeError] it raises when a field
    is missing or a keyword is not a field. *)
Definition BlacklistEntry_kwargs (x : gmap string string) : option BlacklistEntry :=
  match x !! "username", x !! "category" with
  | Some u, Some c =>
      if decide (dom x = {["username"; "category"]}) then Some (mkBlacklistEntry u c)
      else None
  | _, _ => None
  end.

(** The list comprehension over [data] that builds [full_blacklist]. *)
Definition load_data (data : list (gmap string string)) : option (list BlacklistEntry) :=
  mapM BlacklistEntry_kwargs data.

(** [[x.to_json() for x in self.full_blacklist]] *)
Definition dump_data (bl : Blacklist) : list (gmap string string) :=
  to_json <$> full_blacklist bl.

(** ** Roster documents: [NormalEmbed.get_entries] *)

(** [str.upper] on one code point below 256; the result is a list of code
    points, since U+00DF maps to "SS" and U+00B5, U+00FF map above 255. *)
Definition upper_char (c : ascii) : list N :=
  let n := N_of_ascii c in
  if ((97 <=? n) && (n <=? 122) || (224 <=? n) && (n <=? 254) && negb (n =? 247))%N
  then [(n - 32)%N]
  else if (n =? 223)%N then [83%N; 83%N]
  else if (n =? 255)%N then [376%N]
  else if (n =? 181)%N then [924%N]
  else [n].

Fixpoint upper (s : string) : list N :=
  match s with
  | "" => []
  | String c s' => upper_char c ++ upper s'
  end.

(** [range_char(start, stop)], as code points. *)
Definition range_char (start stop : ascii) : list N :=
  N.of_nat <$> seq (nat_of_ascii start) (nat_of_ascii stop + 1 - nat_of_ascii start).

(** The class attributes of a [NormalEmbed] subclass. *)
Module NormalEmbed.
Record t := mk {
  category : option string;
  letter_range : option (list N);
  title : string;
  color : Z;
  filename : string;
  footer : option string;
}.
End NormalEmbed.

Definition ScamEmbed : NormalEmbed.t :=
  {| NormalEmbed.category := Some "Scam"; NormalEmbed.letter_range := None;
     NormalEmbed.title := "__Scam__"; NormalEmbed.color := 14748684;
     NormalEmbed.filename := "scam.txt"; NormalEmbed.footer := None |}.

Definition RMTALEmbed : NormalEmbed.t :=
  {| NormalEmbed.category := Some "RMT";
     NormalEmbed.letter_range := Some (range_char "A" "L");
     NormalEmbed.title := "__RMT__  *(Real Money Trading)*  (A-L)";
     NormalEmbed.color := 7451177;
     NormalEmbed.filename := "rmta.txt"; NormalEmbed.footer := Some "page 1/2" |}.

Definition RMTMZEmbed : NormalEmbed.t :=
  {| NormalEmbed.category := Some "RMT";
     NormalEmbed.letter_range := Some (range_char "M" "Z");
     NormalEmbed.title := "__RMT__  *(Real Money Trading)*  (M-Z)";
     NormalEmbed.color := 7451177;
     NormalEmbed.filename := "rmtb.txt"; NormalEmbed.footer := Some "page 2/2" |}.

Definition ExchangeEmbed : NormalEmbed.t :=
  {| NormalEmbed.category := Some "GW2Exchange"; NormalEmbed.letter_range := None;
     NormalEmbed.title := "__GW2 Exchange__"; NormalEmbed.color := 12297507;
     NormalEmbed.filename := "exchange.txt"; NormalEmbed.footer := None |}.

Definition OtherEmbed : NormalEmbed.t :=
  {| NormalEmbed.category := Some "Other"; NormalEmbed.letter_range := None;
     NormalEmbed.title := "__Other__"; NormalEmbed.color := 8604544;
     NormalEmbed.filename := "other.txt"; NormalEmbed.footer := None |}.

Definition UnknownEmbed : NormalEmbed.t :=
  {| NormalEmbed.category := Some "Unknown"; NormalEmbed.letter_range := None;
     NormalEmbed.title := "__Unknown__"; NormalEmbed.color := 8604544;
     NormalEmbed.filename := "unknown.txt"; NormalEmbed.footer := None |}.

(** The roster documents that [__main__] saves. *)
Definition roster_documents : list NormalEmbed.t :=
  [ScamEmbed; RMTALEmbed; RMTMZEmbed; ExchangeEmbed; OtherEmbed; UnknownEmbed].

(** [sorted(l, key=key)] for a string key: strings compare by code point,
    character by character, a proper prefix first. *)
Fixpoint sorted_insert_str {A} (key : A → string) (x : A) (l : list A) : list A :=
  match l with
  | [] => [x]
  | y :: l' =>
      if String.leb (key x) (key y) then x :: l
      else y :: sorted_insert_str key x l'
  end.

Fixpoint sorted_str {A} (key : A → string) (l : list A) : list A :=
  match l with
  | [] => []
  | x :: l' => sorted_insert_str key x (sorted_str key l')
  end.

(** [[x for x in entries if x.username.upper()[0] in letter_range]]:
    [None] is the [IndexError] of indexing an empty string. *)
Fixpoint filter_letter (letter_range : list N) (entries : list BlacklistEntry)
  : option (list BlacklistEntry) :=
  match entries with
  | [] => Some []
  | x :: entries' =>
      match upper (username x) with
      | [] => None
      | c :: _ =>
          rest ← filter_letter letter_range entries';
          Some (if decide (c ∈ letter_range) then x :: rest else rest)
      end
  end.

Definition get_entries (doc : NormalEmbed.t) (bl : Blacklist)
  : option (list BlacklistEntry) :=
  let entries := sorted_str (λ x, Str.lower (username x)) (full_blacklist bl) in
  let entries :=
    match NormalEmbed.category doc with
    | Some c => if Str.truthy c then filter (λ x, category x = c) entries else entries
    | None => entries
    end in
  match NormalEmbed.letter_range doc with
  | Some (c :: r) => filter_letter (c :: r) entries
  | _ => Some entries
  end.

(** ** [NewEmbed]: the display mode of a block *)

Definition is_rename (r : Ref) : bool :=
  match r with
  | Fresh _ => true
  | StoreRef _ => false
  end.

Definition get_mode (use_list : list Ref) : string :=
  if existsb is_rename use_list then "ini" else "fix".

Definition get_current_mode (bl : Blacklist) : string := get_mode (current_update bl).

Definition get_previous_mode (bl : Blacklist) : string := get_mode (previous_update bl).

(** ** [populate_blacklist.py] *)

(** The body of the import loop. *)
Definition import_line (raw : string) : M unit :=
  let line := Str.strip raw in
  match line with
  | "" => mret tt
  | _ =>
      match Str.rsplit1 "009" line with
      | [name; cat] =>
          if Str.truthy name && Str.truthy cat then
            get_or_append name cat;; mret tt
          else raise (input_line_failure line)
      | parts => raise (unpack_error (length parts))
      end
  end.

Fixpoint import_lines (lines : list string) : M unit :=
  match lines with
  | [] => mret tt
  | raw :: rest => import_line raw;; import_lines rest
  end.

(** The script: [data] is the data file, [input] the changelog that
    [Blacklist()] replays, [sheet] the lines of the import file; the
    result is the outcome and the data file afterwards. *)
Definition populate_main (data : list BlacklistEntry) (input sheet : list string)
  : result Blacklist * list BlacklistEntry :=
  match Blacklist_init data input with
  | (Return blacklist, data1) =>
      match import_lines sheet blacklist with
      | (Return _, blacklist') => (Return blacklist', save_blacklist blacklist')
      | (Raise f, _) => (Raise f, data1)
      end
  | (Raise f, data1) => (Raise f, data1)
  end.

(** ** Definitions used in the further statements *)

(** [sep.join(parts)] *)
Definition join (sep : string) (parts : list string) : string :=
  String.concat sep parts.

(** A line of the changelog that is neither blank nor a comment. *)
Definition is_directive (raw : string) : Prop :=
  Str.strip raw ≠ "" ∧ ∀ s, Str.strip raw ≠ String "#" s.

(** A line of the changelog that is blank or a comment. *)
Definition is_skipped (raw : string) : Prop :=
  Str.strip raw = "" ∨ ∃ s, Str.strip raw = String "#" s.

(** The first character of the upper-cased username is in the letter
    range. *)
Definition first_upper_in (letter_range : list N) (e : BlacklistEntry) : Prop :=
  match upper (username e) with
  | c :: _ => c ∈ letter_range
  | [] => False
  end.

#[export] Instance first_upper_in_dec letter_range e :
  Decision (first_upper_in letter_range e).
Proof. unfold first_upper_in. destruct (upper (username e)); apply _. Defined.

(** The order of a roster: by lower-cased username. *)
Definition name_le (a b : BlacklistEntry) : Prop :=
  String.le (Str.lower (username a)) (Str.lower (username b)).

(** The upsert in the import loop, which drops the returned entry. *)
Definition upsert_only (name cat : string) : M unit :=
  get_or_append name cat;; mret tt.

Definition usernames (bl : Blacklist) : list string := username <$> full_blacklist bl.

Definition categories (bl : Blacklist) : list string := category <$> full_blacklist bl.

(** No entry of the store has the empty username. *)
Definition no_empty_username (bl : Blacklist) : Prop :=
  Forall (λ e, username e ≠ "") (full_blacklist bl).

(** ** Lemmas on the store *)

Section store.
Implicit Types bl : Blacklist.
Implicit Types name old new cat : string.

Lemma get_entry_Some name bl i e :
  get_entry name bl = Some (i, e) →
  full_blacklist bl !! i = Some e ∧ same_name name e ∧
  ∀ j y, full_blacklist bl !! j = Some y → j < i → ¬ same_name name y.
Proof. unfold get_entry. by rewrite list_find_Some. Qed.

Lemma get_entry_lt name bl i e :
  get_entry name bl = Some (i, e) → i < length (full_blacklist bl).
Proof. intros (Hi & _)%get_entry_Some. by eapply lookup_lt_Some. Qed.

Lemma get_entry_None name bl :
  get_entry name bl = None ↔ ¬ has_name name (full_blacklist bl).
Proof.
  unfold get_entry, has_name. rewrite list_find_None, Forall_forall. split.
  - intros H (e & He & Hn). by apply (H e).
  - intros H e He Hn. apply H. by exists e.
Qed.

Lemma get_entry_is_Some name bl :
  has_name name (full_blacklist bl) → is_Some (get_entry name bl).
Proof.
  intros H. destruct (get_entry name bl) eqn:E; [by eexists|].
  by apply get_entry_None in E.
Qed.

Lemma get_entry_set_full_blacklist name l bl :
  get_entry name (set_full_blacklist l bl) = list_find (same_name name) l.
Proof. reflexivity. Qed.

(** After [entry.username = new] on an entry when no username equalled
    [new], the lookup of [new] finds exactly that entry. *)
Lemma get_entry_after_rename new bl i e :
  get_entry new bl = None →
  full_blacklist bl !! i = Some e →
  get_entry new (set_full_blacklist (<[i := set_username new e]> (full_blacklist bl)) bl)
  = Some (i, set_username new e).
Proof.
  intros Hnone Hi. rewrite get_entry_set_full_blacklist.
  apply list_find_Some. split_and!.
  - apply list_lookup_insert_eq. by eapply lookup_lt_Some.
  - reflexivity.
  - intros j y Hj Hlt. rewrite list_lookup_insert_ne in Hj by lia.
    unfold get_entry in Hnone. rewrite list_find_None, Forall_forall in Hnone.
    apply Hnone. by eapply list_elem_of_lookup_2.
Qed.

Lemma NoDup_insert_fresh {A} (l : list A) i x :
  NoDup l → x ∉ l → NoDup (<[i := x]> l).
Proof.
  intros Hnd Hx. apply NoDup_alt. intros j k y Hj Hk.
  apply list_lookup_insert_Some in Hj as [(-> & <- & ?)|(? & Hj)];
    apply list_lookup_insert_Some in Hk as [(? & ? & ?)|(? & Hk)];
    subst; try done.
  - destruct Hx. by eapply list_elem_of_lookup_2.
  - destruct Hx. by eapply list_elem_of_lookup_2.
  - by eapply NoDup_lookup.
Qed.

Lemma get_or_append_unique name cat bl res bl' :
  unique_usernames bl →
  get_or_append name cat bl = (res, bl') →
  unique_usernames bl'.
Proof.
  unfold unique_usernames, get_or_append. intros Hnd Heq.
  destruct (get_entry name bl) as [[i e]|] eqn:E; simplify_eq/=.
  - apply get_entry_Some in E as (Hi & _ & _).
    rewrite list_fmap_insert. simpl.
    rewrite list_insert_id; [done|].
    by rewrite list_lookup_fmap, Hi.
  - rewrite fmap_app. simpl. apply NoDup_app. split_and!; [done| |apply NoDup_singleton].
    intros x Hx ->%list_elem_of_singleton.
    apply list_elem_of_fmap in Hx as (e & Hlow & He).
    apply get_entry_None in E. apply E. by exists e.
Qed.

Lemma update_username_unique old new bl i bl' :
  unique_usernames bl →
  update_username old new bl = (Return i, bl') →
  unique_usernames bl'.
Proof.
  unfold unique_usernames, update_username. intros Hnd Heq.
  destruct (get_entry new bl) as [[j e]|] eqn:Enew; simplify_eq/=; [done|].
  destruct (get_entry old bl) as [[j e]|] eqn:Eold; simplify_eq/=.
  rewrite list_fmap_insert. simpl. apply NoDup_insert_fresh; [done|].
  intros (e' & Hlow & He')%list_elem_of_fmap.
  apply get_entry_None in Enew. apply Enew. by exists e'.
Qed.

Lemma update_username_Raise old new bl f bl' :
  update_username old new bl = (Raise f, bl') →
  bl' = bl ∧ f = update_username_failure old new ∧
  ¬ has_name new (full_blacklist bl) ∧ ¬ has_name old (full_blacklist bl).
Proof.
  unfold update_username. intros Heq.
  destruct (get_entry new bl) as [[j e]|] eqn:Enew; simplify_eq/=.
  destruct (get_entry old bl) as [[j e]|] eqn:Eold; simplify_eq/=.
  by rewrite <-!get_entry_None.
Qed.

End store.


Lemma only_bob_no_name (name : string) :
  Str.lower name ≠ "bob" → ¬ has_name name (full_blacklist only_bob).
Proof. intros Hne (e & ->%list_elem_of_singleton & He). by apply Hne. Qed.


(** C5.  Case-insensitive uniqueness of usernames is an invariant of the
    store: an upsert and a successful rename both lead from a store in
    which no two usernames are equal case-insensitively to such a store. *)
Theorem unique_usernames_invariant (bl : Blacklist) :
  unique_usernames bl →
  (∀ name cat res bl', get_or_append name cat bl = (res, bl') → unique_usernames bl') ∧
  (∀ old new i bl', update_username old new bl = (Return i, bl') → unique_usernames bl').
Proof.
  intros Hnd. split.
  - intros name cat res bl'. by apply get_or_append_unique.
  - intros old new i bl'. by apply update_username_unique.
Qed.

Lemma unique_usernames_invariant_witness :
  unique_usernames only_bob ∧
  unique_usernames
    (store_of [mkBlacklistEntry "Bob" "Scam"; mkBlacklistEntry "Carol" "RMT"]) ∧
  unique_usernames (store_of [mkBlacklistEntry "Robert" "Scam"]).
Proof.
  assert (Hbob : unique_usernames only_bob) by apply NoDup_singleton.
  split_and!.
  - exact Hbob.
  - apply (proj1 (unique_usernames_invariant only_bob Hbob) "Carol" "RMT" (Return 1)).
    reflexivity.
  - apply (proj2 (unique_usernames_invariant only_bob Hbob) "bob" "Robert" 0).
    reflexivity.
Defined.

(** C8.  Rename is idempotent on the store: when [rename(A, B)] succeeds,
    a second [rename(A, B)] returns the same entry and changes nothing. *)
Theorem update_username_idempotent (bl : Blacklist) (A B : string) (i : nat)
    (bl1 : Blacklist) :
  update_username A B bl = (Return i, bl1) →
  update_username A B bl1 = (Return i, bl1).
Proof.
  unfold update_username at 1. intros Heq.
  destruct (get_entry B bl) as [[j e]|] eqn:EB; simplify_eq/=.
  - unfold update_username. by rewrite EB.
  - destruct (get_entry A bl) as [[j e]|] eqn:EA; simplify_eq/=.
    apply get_entry_Some in EA as (Hi & _ & _).
    unfold update_username. by rewrite (get_entry_after_rename B bl i e).
Qed.

Lemma update_username_idempotent_witness :
  update_username "Bob" "Robert" (store_of [mkBlacklistEntry "Robert" "Scam"])
  = (Return 0, store_of [mkBlacklistEntry "Robert" "Scam"]).
Proof.
  apply (update_username_idempotent only_bob "Bob" "Robert" 0). reflexivity.
Defined.

(** ** Upsert *)

Lemma filter_none {A} (P : A → Prop) `{!∀ x, Decision (P x)} (l : list A) :
  (∀ x, x ∈ l → ¬ P x) → filter P l = [].
Proof.
  induction l as [|x l IH]; intros Hall; [done|].
  rewrite filter_cons_False by (apply Hall, list_elem_of_here).
  apply IH. intros y Hy. apply Hall. by apply list_elem_of_further.
Qed.

Lemma get_or_append_existing (name cat : string) (bl : Blacklist) :
  has_name name (full_blacklist bl) →
  ∃ i e, full_blacklist bl !! i = Some e ∧ same_name name e ∧
         get_or_append name cat bl =
           (Return i,
            set_full_blacklist (<[i := set_category cat e]> (full_blacklist bl)) bl).
Proof.
  intros [[i e] E]%get_entry_is_Some. unfold get_or_append. rewrite E.
  apply get_entry_Some in E as (? & ? & _). by exists i, e.
Qed.

Lemma get_or_append_new (name cat : string) (bl : Blacklist) :
  ¬ has_name name (full_blacklist bl) →
  get_or_append name cat bl =
    (Return (length (full_blacklist bl)),
     set_full_blacklist (full_blacklist bl ++ [mkBlacklistEntry name cat]) bl).
Proof. intros E%get_entry_None. unfold get_or_append. by rewrite E. Qed.

(** On a store that already holds "alice", both upserts hit that entry:
    its casing stays "alice". *)
Lemma upsert_alice_on_every_store_fails : ¬ upsert_alice_on_every_store.
Proof.
  intros H.
  specialize (H (store_of [mkBlacklistEntry "alice" "Other"])
                (Return 0) (store_of [mkBlacklistEntry "alice" "Scam"])
                (Return 0) (store_of [mkBlacklistEntry "alice" "RMT"])
                eq_refl eq_refl).
  vm_compute in H. discriminate H.
Qed.

(** C9 (amended).  On a store that holds no entry for "Alice"
    (case-insensitively), [upsert("Alice", "Scam")] followed by
    [upsert("ALICE", "RMT")] appends one entry, which is the only entry
    for that username and reads "Alice" / "RMT".  In general an upsert of
    a username the store holds (case-insensitively) overwrites that
    entry's category and keeps its stored username, and an upsert of a
    username it does not hold appends a new entry. *)
Theorem get_or_append_upsert (bl : Blacklist) :
  (¬ has_name "Alice" (full_blacklist bl) →
   ∃ bl1 bl2,
     get_or_append "Alice" "Scam" bl = (Return (length (full_blacklist bl)), bl1) ∧
     get_or_append "ALICE" "RMT" bl1 = (Return (length (full_blacklist bl)), bl2) ∧
     full_blacklist bl2 = (full_blacklist bl ++ [mkBlacklistEntry "Alice" "RMT"]) ∧
     filter (same_name "Alice") (full_blacklist bl2) = [mkBlacklistEntry "Alice" "RMT"]) ∧
  (∀ name cat,
     has_name name (full_blacklist bl) →
     ∃ i e, full_blacklist bl !! i = Some e ∧ same_name name e ∧
            get_or_append name cat bl =
              (Return i,
               set_full_blacklist
                 (<[i := {| username := username e; category := cat |}]> (full_blacklist bl))
                 bl)) ∧
  (∀ name cat,
     ¬ has_name name (full_blacklist bl) →
     get_or_append name cat bl =
       (Return (length (full_blacklist bl)),
        set_full_blacklist (full_blacklist bl ++ [mkBlacklistEntry name cat]) bl)).
Proof.
  split_and!.
  - intros Hno. eexists _, _. split; [by apply get_or_append_new|].
    assert (Hfind : get_entry "ALICE"
              (set_full_blacklist
                 (full_blacklist bl ++ [mkBlacklistEntry "Alice" "Scam"]) bl)
            = Some (length (full_blacklist bl), mkBlacklistEntry "Alice" "Scam")).
    { rewrite get_entry_set_full_blacklist. apply list_find_app_Some. right.
      split; [lia|]. split.
      - apply get_entry_None in Hno. exact Hno.
      - by rewrite Nat.sub_diag. }
    unfold get_or_append at 1. rewrite Hfind. simpl.
    assert (Hins : <[length (full_blacklist bl) := set_category "RMT" (mkBlacklistEntry "Alice" "Scam")]>
                     (full_blacklist bl ++ [mkBlacklistEntry "Alice" "Scam"])
                   = (full_blacklist bl ++ [mkBlacklistEntry "Alice" "RMT"])).
    { rewrite insert_app_r_alt by lia. by rewrite Nat.sub_diag. }
    rewrite Hins. split_and!; [done..|].
    cbn [full_blacklist set_full_blacklist].
    rewrite filter_app, filter_none; [done|].
    intros e He Hn. apply Hno. by exists e.
  - intros name cat. apply get_or_append_existing.
  - intros name cat. apply get_or_append_new.
Qed.

Lemma get_or_append_upsert_witness :
  (∃ bl1 bl2,
     get_or_append "Alice" "Scam" only_bob = (Return 1, bl1) ∧
     get_or_append "ALICE" "RMT" bl1 = (Return 1, bl2) ∧
     full_blacklist bl2 = [mkBlacklistEntry "Bob" "Scam"; mkBlacklistEntry "Alice" "RMT"] ∧
     filter (same_name "Alice") (full_blacklist bl2) = [mkBlacklistEntry "Alice" "RMT"]) ∧
  (∃ i e, full_blacklist only_bob !! i = Some e ∧ same_name "BOB" e ∧
          get_or_append "BOB" "RMT" only_bob =
            (Return i,
             set_full_blacklist
               (<[i := {| username := username e; category := "RMT" |}]>
                  (full_blacklist only_bob)) only_bob)) ∧
  get_or_append "Carol" "RMT" only_bob =
    (Return 1,
     set_full_blacklist [mkBlacklistEntry "Bob" "Scam"; mkBlacklistEntry "Carol" "RMT"]
       only_bob).
Proof.
  split_and!.
  - apply (get_or_append_upsert only_bob). by apply only_bob_no_name.
  - apply (get_or_append_upsert only_bob).
    exists (mkBlacklistEntry "Bob" "Scam"). split; [apply list_elem_of_here|reflexivity].
  - apply (get_or_append_upsert only_bob). by apply only_bob_no_name.
Defined.

(** ** Emphasis *)

Lemma epoch_find_Some (bl : Blacklist) (name : string) (l : list Ref) :
  in_epoch bl name l → is_Some (snd <$> list_find (ref_same_name bl name) l).
Proof.
  intros (r & Hr & Hn). apply fmap_is_Some. by eapply list_find_elem_of.
Qed.

Lemma epoch_find_None (bl : Blacklist) (name : string) (l : list Ref) :
  ¬ in_epoch bl name l → snd <$> list_find (ref_same_name bl name) l = None.
Proof.
  intros Hno. apply fmap_None, list_find_None, Forall_forall.
  intros r Hr Hn. apply Hno. by exists r.
Qed.

(** C6.  The emphasis helper looks in [current_update] before
    [previous_update]: a username found in the current list is wrapped in
    bold, also when the previous list holds it too; one found only in the
    previous list is wrapped in italics; one found in neither is returned
    as it is. *)
Theorem format_username_emphasis (bl : Blacklist) (name : string) :
  (in_epoch bl name (current_update bl) →
     format_username name bl = Str.nl +:+ "**" +:+ name +:+ "**" +:+ Str.nl) ∧
  (in_epoch bl name (current_update bl) →
   in_epoch bl name (previous_update bl) →
     format_username name bl = Str.nl +:+ "**" +:+ name +:+ "**" +:+ Str.nl) ∧
  (¬ in_epoch bl name (current_update bl) →
   in_epoch bl name (previous_update bl) →
     format_username name bl = Str.nl +:+ "*" +:+ name +:+ "*" +:+ Str.nl) ∧
  (¬ in_epoch bl name (current_update bl) →
   ¬ in_epoch bl name (previous_update bl) →
     format_username name bl = name).
Proof.
  unfold format_username, get_entry_from_current, get_entry_from_previous.
  split_and!.
  - by intros [r ->]%epoch_find_Some.
  - by intros [r ->]%epoch_find_Some _.
  - by intros ->%epoch_find_None [r ->]%epoch_find_Some.
  - by intros ->%epoch_find_None ->%epoch_find_None.
Qed.

Ltac not_in_epoch :=
  let r := fresh "r" in
  let Hr := fresh "Hr" in
  let Hn := fresh "Hn" in
  intros (r & Hr & Hn);
  repeat (apply elem_of_cons in Hr as [->|Hr]; [discriminate Hn|]);
  by apply elem_of_nil in Hr.

Lemma format_username_emphasis_witness :
  format_username "BOB" bob_in_both = Str.nl +:+ "**BOB**" +:+ Str.nl ∧
  format_username "carl" bob_in_both = Str.nl +:+ "*carl*" +:+ Str.nl ∧
  format_username "Dave" bob_in_both = "Dave".
Proof.
  split_and!.
  - apply (format_username_emphasis bob_in_both "BOB").
    + exists (StoreRef 0). split; [apply list_elem_of_here|reflexivity].
    + exists (StoreRef 0). split; [apply list_elem_of_here|reflexivity].
  - apply (format_username_emphasis bob_in_both "carl").
    + not_in_epoch.
    + exists (StoreRef 1). split; [|reflexivity].
      apply list_elem_of_further, list_elem_of_here.
  - apply (format_username_emphasis bob_in_both "Dave").
    + not_in_epoch.
    + not_in_epoch.
Defined.

(** ** The order of the "new entries" document *)

Section sorting.
Context {A : Type} (key : A → Z).

Lemma sorted_insert_Permutation (x : A) (l : list A) :
  sorted_insert key x l ≡ₚ x :: l.
Proof.
  induction l as [|y l IH]; simpl; [done|].
  destruct (key x <=? key y)%Z; [done|].
  rewrite IH. apply Permutation_swap.
Qed.

Lemma sorted_Permutation (l : list A) : sorted key l ≡ₚ l.
Proof.
  induction l as [|x l IH]; simpl; [done|].
  by rewrite sorted_insert_Permutation, IH.
Qed.

Lemma sorted_insert_StronglySorted (x : A) (l : list A) :
  StronglySorted (key_le key) l → StronglySorted (key_le key) (sorted_insert key x l).
Proof.
  induction 1 as [|y l Hs IH Hall]; simpl.
  - by repeat constructor.
  - destruct (key x <=? key y)%Z eqn:E.
    + apply Z.leb_le in E. constructor; [by constructor|].
      constructor; [done|].
      eapply Forall_impl; [exact Hall|]. unfold key_le. intros; lia.
    + apply Z.leb_gt in E. constructor; [done|].
      rewrite sorted_insert_Permutation.
      constructor; [unfold key_le; lia|done].
Qed.

Lemma sorted_StronglySorted (l : list A) : StronglySorted (key_le key) (sorted key l).
Proof.
  induction l as [|x l IH]; simpl; [constructor|].
  by apply sorted_insert_StronglySorted.
Qed.

Lemma StronglySorted_lookup_le (l : list A) (i j : nat) (a b : A) :
  StronglySorted (key_le key) l →
  l !! i = Some a → l !! j = Some b → i < j → key_le key a b.
Proof.
  intros Hs. revert i j. induction Hs as [|y l Hs IH Hall]; intros i j Hi Hj Hlt.
  - done.
  - destruct j as [|j]; [lia|]. destruct i as [|i]; simplify_eq/=.
    + rewrite Forall_forall in Hall. apply Hall. by eapply list_elem_of_lookup_2.
    + apply (IH i j); [done..|lia].
Qed.

(** In the sorted list a smaller key stands before a larger one. *)
Lemma sorted_lookup_lt (l : list A) (i j : nat) (a b : A) :
  sorted key l !! i = Some a → sorted key l !! j = Some b →
  (key a < key b)%Z → i < j.
Proof.
  intros Hi Hj Hlt. destruct (decide (i < j)) as [|Hge]; [done|].
  destruct (decide (i = j)) as [->|Hne]; [simplify_eq; lia|].
  pose proof (StronglySorted_lookup_le _ j i b a (sorted_StronglySorted l) Hj Hi) as Hle.
  unfold key_le in Hle. lia.
Qed.

(** The sort is stable: records of one key keep their order. *)
Lemma sorted_insert_stable (k : Z) (x : A) (l : list A) :
  StronglySorted (key_le key) l →
  filter (λ y, key y = k) (sorted_insert key x l) = filter (λ y, key y = k) (x :: l).
Proof.
  induction 1 as [|y l Hs IH Hall]; simpl; [done|].
  destruct (key x <=? key y)%Z eqn:E; [done|].
  apply Z.leb_gt in E. rewrite !filter_cons, IH, filter_cons.
  repeat case_decide; try done; lia.
Qed.

Lemma sorted_stable (k : Z) (l : list A) :
  filter (λ y, key y = k) (sorted key l) = filter (λ y, key y = k) l.
Proof.
  induction l as [|x l IH]; simpl; [done|].
  rewrite sorted_insert_stable by apply sorted_StronglySorted.
  by rewrite !filter_cons, IH.
Qed.

End sorting.

Lemma CATEGORY_SORTING_other (c : string) :
  c ∉ ["Scam"; "RMT"; "GW2Exchange"; "Other"; "Unknown"] →
  CATEGORY_SORTING !! c = None.
Proof.
  intros Hc. unfold CATEGORY_SORTING.
  rewrite !lookup_insert_ne, lookup_empty; [done|..];
    intros <-; apply Hc; set_solver.
Qed.

Lemma append_empty_r (s : string) : s +:+ "" = s.
Proof.
  induction s as [|c s IH]; [done|].
  change (String c (s +:+ "") = String c s). by rewrite IH.
Qed.

Lemma append_assoc (s1 s2 s3 : string) : (s1 +:+ s2) +:+ s3 = s1 +:+ (s2 +:+ s3).
Proof.
  induction s1 as [|c s1 IH]; [done|].
  change (String c ((s1 +:+ s2) +:+ s3) = String c (s1 +:+ s2 +:+ s3)). by rewrite IH.
Qed.

Lemma get_names_foldl (acc : string) (l : list Object) :
  foldl (fun res entry => res +:+ to_new_str entry +:+ Str.nl) acc l
  = acc +:+ String.concat "" ((λ o, to_new_str o +:+ Str.nl) <$> l).
Proof.
  revert acc. induction l as [|o l IH]; intros acc; simpl.
  - by rewrite append_empty_r.
  - rewrite IH. destruct l as [|o' l].
    + simpl. by rewrite !append_empty_r.
    + cbn [fmap list_fmap String.concat]. by rewrite !append_assoc.
Qed.

Lemma sortkey_range (o : Object) (k : Z) :
  CATEGORY_SORTING !! obj_category o = Some k →
  (k ≤ sortkey o ≤ k + 10)%Z.
Proof.
  unfold obj_category. destruct o as [e|r]; simpl;
    unfold RenameEntry_sortkey, BlacklistEntry_sortkey; intros ->; lia.
Qed.

(** C7.  The "new entries" order.  The sort key of a plain record is the
    rank of its category (Scam 100, RMT 200, GW2Exchange 300, Other 400,
    Unknown 500, anything else 500) and that of a rename-annotated record
    is 10 more.  [get_names] writes the records of an epoch list in
    ascending key order, one line each: every Scam line stands before
    every RMT line, every RMT line before every Other line, and within a
    category every plain line before every rename-annotated line. *)
Theorem new_entries_sort_order (bl : Blacklist) (use_list : list Ref) :
  (∀ e, (category e = "Scam" → sortkey (Plain e) = 100%Z) ∧
        (category e = "RMT" → sortkey (Plain e) = 200%Z) ∧
        (category e = "GW2Exchange" → sortkey (Plain e) = 300%Z) ∧
        (category e = "Other" → sortkey (Plain e) = 400%Z) ∧
        (category e = "Unknown" → sortkey (Plain e) = 500%Z) ∧
        (category e ∉ ["Scam"; "RMT"; "GW2Exchange"; "Other"; "Unknown"] →
           sortkey (Plain e) = 500%Z)) ∧
  (∀ r, sortkey (Renamed r) = (sortkey (Plain (base r)) + 10)%Z) ∧
  get_names bl use_list
    = String.concat "" ((λ o, to_new_str o +:+ Str.nl) <$> names_order bl use_list) ∧
  names_order bl use_list ≡ₚ observe bl <$> use_list ∧
  (∀ i j a b,
     names_order bl use_list !! i = Some a →
     names_order bl use_list !! j = Some b →
     (sortkey a < sortkey b)%Z → i < j) ∧
  (∀ i j a b,
     names_order bl use_list !! i = Some a →
     names_order bl use_list !! j = Some b →
     (obj_category a = "Scam" ∧ obj_category b = "RMT") ∨
     (obj_category a = "RMT" ∧ obj_category b = "Other") ∨
     (obj_category a = "Scam" ∧ obj_category b = "Other") →
     i < j) ∧
  (∀ i j e r,
     names_order bl use_list !! i = Some (Plain e) →
     names_order bl use_list !! j = Some (Renamed r) →
     category e = category (base r) → i < j).
Proof.
  split_and!.
  - intros [u c]. unfold sortkey, BlacklistEntry_sortkey. simpl.
    split_and!; try (intros ->; reflexivity).
    intros Hc. by rewrite CATEGORY_SORTING_other.
  - done.
  - unfold get_names. by rewrite get_names_foldl.
  - apply sorted_Permutation.
  - intros i j a b. apply sorted_lookup_lt.
  - intros i j a b Hi Hj Hcat. eapply (sorted_lookup_lt sortkey); [done..|].
    destruct Hcat as [[Ha Hb]|[[Ha Hb]|[Ha Hb]]].
    + pose proof (sortkey_range a 100) as Hra. pose proof (sortkey_range b 200) as Hrb.
      rewrite Ha in Hra. rewrite Hb in Hrb.
      specialize (Hra eq_refl). specialize (Hrb eq_refl). lia.
    + pose proof (sortkey_range a 200) as Hra. pose proof (sortkey_range b 400) as Hrb.
      rewrite Ha in Hra. rewrite Hb in Hrb.
      specialize (Hra eq_refl). specialize (Hrb eq_refl). lia.
    + pose proof (sortkey_range a 100) as Hra. pose proof (sortkey_range b 400) as Hrb.
      rewrite Ha in Hra. rewrite Hb in Hrb.
      specialize (Hra eq_refl). specialize (Hrb eq_refl). lia.
  - intros i j e r Hi Hj Hcat. eapply (sorted_lookup_lt sortkey); [done..|].
    simpl. unfold RenameEntry_sortkey, BlacklistEntry_sortkey. rewrite Hcat. lia.
Qed.

Lemma new_entries_sort_order_witness :
  sortkey (Plain (mkBlacklistEntry "Zed" "Other")) = 400%Z ∧
  sortkey (Plain (mkBlacklistEntry "Q" "scam")) = 500%Z ∧
  names_order five_changes (current_update five_changes) !! 1
    = Some (Plain (mkBlacklistEntry "Al" "Scam")) ∧
  1 < 3 ∧ 3 < 4 ∧ 1 < 2.
Proof.
  pose proof (new_entries_sort_order five_changes (current_update five_changes))
    as (Hkey & _ & _ & _ & Hlt & Hcat & Hren).
  split_and!.
  - by apply (Hkey (mkBlacklistEntry "Zed" "Other")).
  - apply (Hkey (mkBlacklistEntry "Q" "scam")). simpl.
    rewrite !not_elem_of_cons. split_and!; [done..|apply not_elem_of_nil].
  - reflexivity.
  - apply (Hlt 1 3 (Plain (mkBlacklistEntry "Al" "Scam"))
               (Plain (mkBlacklistEntry "Carl" "RMT"))); [reflexivity..|done].
  - apply (Hcat 3 4 (Plain (mkBlacklistEntry "Carl" "RMT"))
                (Plain (mkBlacklistEntry "Zed" "Other"))); [reflexivity..|].
    right. left. done.
  - apply (Hren 1 2 (mkBlacklistEntry "Al" "Scam")
                {| base := mkBlacklistEntry "Robert" "Scam"; old_username := "Bob" |});
      reflexivity.
Defined.

(** ** Lemmas on the string built-ins *)

Section strings.
Implicit Types s t u v raw : string.
Implicit Types c : ascii.

Lemma lstrip_head raw c s : Str.lstrip raw = String c s → Str.isspace c = false.
Proof.
  induction raw as [|c' raw IH]; simpl; [done|].
  destruct (Str.isspace c') eqn:E; [done|]. intros ?. by simplify_eq.
Qed.

Lemma rstrip_head t c s : Str.rstrip t = String c s → ∃ s', t = String c s'.
Proof.
  destruct t as [|c' t]; simpl; [done|].
  destruct (Str.rstrip t); [destruct (Str.isspace c')|]; intros ?; simplify_eq; by eexists.
Qed.

Lemma strip_head raw c s : Str.strip raw = String c s → Str.isspace c = false.
Proof.
  unfold Str.strip. intros [s' Hs']%rstrip_head. by eapply lstrip_head.
Qed.

Lemma rcut_cons sep c s :
  Str.rcut sep (String c s) =
  match Str.rcut sep s with
  | Some (u, v) => Some (String c u, v)
  | None => if decide (c = sep) then Some ("", s) else None
  end.
Proof. reflexivity. Qed.

(** A right-stripped string does not end with a space: the cut at its
    last space leaves something on the right. *)
Lemma rcut_rstrip t u : Str.rcut " " (Str.rstrip t) ≠ Some (u, "").
Proof.
  revert u. induction t as [|c t IH]; intros u; simpl; [done|].
  destruct (Str.rstrip t) as [|c' r] eqn:E.
  - destruct (Str.isspace c) eqn:Ec; simpl; [done|].
    case_decide; [|done]. by subst.
  - rewrite rcut_cons.
    destruct (Str.rcut " " (String c' r)) as [[u' v']|] eqn:Er.
    + intros ?. simplify_eq. by eapply IH.
    + by case_decide.
Qed.

Lemma rcut_empty_left sep c s v :
  Str.rcut sep (String c s) = Some ("", v) → c = sep.
Proof.
  simpl. destruct (Str.rcut sep s) as [[u' v']|]; [done|]. by case_decide.
Qed.

Lemma contains_cons sub c s :
  Str.contains sub (String c s) = String.prefix sub (String c s) || Str.contains sub s.
Proof. reflexivity. Qed.

Lemma prefix_char c c' s :
  String.prefix (String c "") (String c' s) = bool_decide (c' = c).
Proof.
  change (String.prefix (String c "") (String c' s))
    with (if ascii_dec c c' then String.prefix "" s else false).
  destruct (ascii_dec c c') as [->|Hne].
  - rewrite bool_decide_eq_true_2 by done. by destruct s.
  - by rewrite bool_decide_eq_false_2 by done.
Qed.

Lemma rcut_None s : Str.rcut " " s = None ↔ Str.contains " " s = false.
Proof.
  induction s as [|c s IH]; [done|].
  rewrite rcut_cons, contains_cons, prefix_char.
  destruct (Str.rcut " " s) as [[u v]|].
  - split; [done|]. intros [_ H]%orb_false_iff. by apply IH in H.
  - destruct IH as [IH _]. rewrite IH by done. rewrite orb_false_r.
    case_decide.
    + by rewrite bool_decide_eq_true_2.
    + by rewrite bool_decide_eq_false_2.
Qed.

(** On a stripped line the split at the last space, when there is one,
    gives two non-empty parts. *)
Lemma rsplit1_strip raw name cat :
  Str.rsplit1 " " (Str.strip raw) = [name; cat] →
  Str.truthy name = true ∧ Str.truthy cat = true.
Proof.
  unfold Str.rsplit1.
  destruct (Str.rcut " " (Str.strip raw)) as [[u v]|] eqn:E; [|done].
  intros ?. simplify_eq. split.
  - destruct name; [|done].
    destruct (Str.strip raw) as [|c s] eqn:Es; [done|].
    apply rcut_empty_left in E as ->. by apply strip_head in Es.
  - destruct cat; [|done]. by apply rcut_rstrip in E.
Qed.

End strings.

(** ** The changelog loop, directive by directive *)

Lemma truthy_true (s : string) : Str.truthy s = true → s ≠ "".
Proof. by destruct s. Qed.

Lemma process_line_shape (raw target : string) (bl : Blacklist) :
  line_shape raw target bl.
Proof.
  destruct (Str.strip raw) as [|c0 s] eqn:Es.
  { apply shape_blank; [done|]. unfold process_line. by rewrite Es. }
  destruct (decide (c0 = "#"%char)) as [->|Hc0].
  { eapply shape_comment; [done|]. unfold process_line. by rewrite Es. }
  destruct (Str.contains " -> " (String c0 s)) eqn:Earrow.
  - destruct (Str.split " -> " (String c0 s)) as [|old [|new [|x parts]]] eqn:Esplit.
    + apply shape_rename_unpack; rewrite Es; [done|by rewrite Esplit|].
      unfold process_line. rewrite Es, decide_False, Earrow, Esplit by done. done.
    + apply shape_rename_unpack; rewrite Es; [done|by rewrite Esplit|].
      unfold process_line. rewrite Es, decide_False, Earrow, Esplit by done. done.
    + apply (shape_rename _ _ _ old new); rewrite ?Es; [done..|].
      unfold process_line. rewrite Es, decide_False, Earrow, Esplit by done. done.
    + apply shape_rename_unpack; rewrite Es; [done|by rewrite Esplit|].
      unfold process_line. rewrite Es, decide_False, Earrow, Esplit by done. done.
  - pose proof (rsplit1_strip raw) as Hparts. rewrite Es in Hparts.
    unfold Str.rsplit1 in *.
    destruct (Str.rcut " " (String c0 s)) as [[name cat]|] eqn:Ecut.
    + destruct (Hparts name cat eq_refl) as [Hname Hcat].
      apply (shape_add _ _ _ name cat); rewrite ?Es; [done| |by apply truthy_true..|].
      { unfold Str.rsplit1. by rewrite Ecut. }
      unfold process_line.
      rewrite Es, decide_False, Earrow by done. unfold Str.rsplit1.
      by rewrite Ecut, Hname, Hcat.
    + apply shape_add_unpack; rewrite ?Es; [done..|by apply rcut_None|].
      unfold process_line.
      rewrite Es, decide_False, Earrow by done. unfold Str.rsplit1.
      by rewrite Ecut.
Qed.

Section run.
Implicit Types bl : Blacklist.
Implicit Types raw target name old new cat : string.

Lemma rename_directive_run old new target bl :
  rename_directive old new target bl =
  match update_username old new bl with
  | (Return i, bl1) =>
      (Return target,
       recorded (Fresh {| base := deref bl1 i; old_username := old |}) target bl1)
  | (Raise f, bl1) => (Raise f, bl1)
  end.
Proof.
  unfold rename_directive, recorded, mbind, M_bind, mret, M_ret.
  destruct (update_username old new bl) as [[i|f] bl1]; [|done].
  unfold add_to_updates. by destruct (Str.contains "previous" target).
Qed.

Lemma add_directive_run name cat target bl :
  add_directive name cat target bl =
  match get_or_append name cat bl with
  | (Return i, bl1) => (Return target, recorded (StoreRef i) target bl1)
  | (Raise f, bl1) => (Raise f, bl1)
  end.
Proof.
  unfold add_directive, recorded, mbind, M_bind, mret, M_ret.
  destruct (get_or_append name cat bl) as [[i|f] bl1]; [|done].
  unfold add_to_updates. by destruct (Str.contains "previous" target).
Qed.

Lemma update_username_frame old new bl res bl' :
  update_username old new bl = (res, bl') →
  current_update bl' = current_update bl ∧
  previous_update bl' = previous_update bl ∧
  length (full_blacklist bl') = length (full_blacklist bl) ∧
  ∀ i, res = Return i → i < length (full_blacklist bl').
Proof.
  unfold update_username. intros Heq.
  destruct (get_entry new bl) as [[j e]|] eqn:Enew; simplify_eq/=.
  { split_and!; [done..|]. intros i [= <-]. by eapply get_entry_lt. }
  destruct (get_entry old bl) as [[j e]|] eqn:Eold; simplify_eq/=.
  - rewrite length_insert. split_and!; [done..|]. intros i [= <-].
    by eapply get_entry_lt.
  - by split_and!.
Qed.

Lemma get_or_append_frame name cat bl res bl' :
  get_or_append name cat bl = (res, bl') →
  current_update bl' = current_update bl ∧
  previous_update bl' = previous_update bl ∧
  length (full_blacklist bl) ≤ length (full_blacklist bl') ∧
  ∃ i, res = Return i ∧ i < length (full_blacklist bl').
Proof.
  unfold get_or_append. intros Heq.
  destruct (get_entry name bl) as [[j e]|] eqn:E; simplify_eq/=.
  - rewrite length_insert. split_and!; [done..|]. exists j. split; [done|].
    by eapply get_entry_lt.
  - rewrite length_app. simpl. split_and!; [done|done|lia|].
    eexists. split; [done|lia].
Qed.

Lemma recorded_grows entry target bl : grows bl (recorded entry target bl).
Proof.
  unfold grows, recorded, add_to_updates.
  destruct (Str.contains "previous" target); simpl;
    split_and!; try done; by apply prefix_app_r.
Qed.

Lemma recorded_refs_valid entry target bl :
  refs_valid bl →
  (∀ i, entry = StoreRef i → i < length (full_blacklist bl)) →
  refs_valid (recorded entry target bl).
Proof.
  unfold refs_valid, recorded, add_to_updates. intros Hv He i.
  destruct (Str.contains "previous" target); simpl;
    rewrite ?elem_of_app, ?list_elem_of_singleton; intros Hi;
    [destruct Hi as [Hi|[Hi|Hi]]|destruct Hi as [[Hi|Hi]|Hi]];
    try (by apply He); apply Hv, elem_of_app; auto.
Qed.

Lemma grows_refl bl : grows bl bl.
Proof. by unfold grows. Qed.

Lemma grows_trans bl1 bl2 bl3 : grows bl1 bl2 → grows bl2 bl3 → grows bl1 bl3.
Proof.
  unfold grows. intros (? & ? & ?) (? & ? & ?).
  split_and!; [by etrans..|lia].
Qed.

Lemma frame_grows bl bl' :
  current_update bl' = current_update bl →
  previous_update bl' = previous_update bl →
  length (full_blacklist bl) ≤ length (full_blacklist bl') →
  grows bl bl'.
Proof. unfold grows. by intros -> -> ?. Qed.

Lemma frame_refs_valid bl bl' :
  current_update bl' = current_update bl →
  previous_update bl' = previous_update bl →
  length (full_blacklist bl) ≤ length (full_blacklist bl') →
  refs_valid bl → refs_valid bl'.
Proof.
  unfold refs_valid. intros -> -> Hlen Hv i Hi. specialize (Hv i Hi). lia.
Qed.

(** A line that raises leaves the object as it was. *)
Lemma process_line_Raise raw target bl f bl' :
  process_line raw target bl = (Raise f, bl') →
  bl' = bl ∧
  (f = unpack_error (length (Str.split " -> " (Str.strip raw))) ∨
   f = unpack_error 1 ∨
   ∃ old new, Str.split " -> " (Str.strip raw) = [old; new] ∧
              f = update_username_failure old new).
Proof.
  intros Hrun.
  destruct (process_line_shape raw target bl)
    as [? Heq|? ? Heq|old new ? Hsplit Heq|? ? Heq|name cat ? ? ? ? Heq|? ? ? Heq];
    rewrite Heq in Hrun.
  - done.
  - done.
  - rewrite rename_directive_run in Hrun.
    destruct (update_username old new bl) as [[i|f'] bl1] eqn:Eu; simplify_eq.
    apply update_username_Raise in Eu as (-> & -> & _). split; [done|].
    right. right. by exists old, new.
  - simplify_eq. auto.
  - rewrite add_directive_run in Hrun.
    destruct (get_or_append name cat bl) as [[i|f'] bl1] eqn:Eg; simplify_eq.
    apply get_or_append_frame in Eg as (_ & _ & _ & i & ? & _). done.
  - simplify_eq. auto.
Qed.

Lemma process_line_grows raw target bl res bl' :
  process_line raw target bl = (res, bl') →
  grows bl bl' ∧ (refs_valid bl → refs_valid bl').
Proof.
  intros Hrun.
  destruct (process_line_shape raw target bl)
    as [? Heq|? ? Heq|old new ? Hsplit Heq|? ? Heq|name cat ? ? ? ? Heq|? ? ? Heq];
    rewrite Heq in Hrun.
  - simplify_eq. split; [apply grows_refl|done].
  - simplify_eq. split; [apply grows_refl|done].
  - rewrite rename_directive_run in Hrun.
    destruct (update_username old new bl) as [[i|f'] bl1] eqn:Eu; simplify_eq.
    + apply update_username_frame in Eu as (Hc & Hp & Hlen & Hi). split.
      * eapply grows_trans; [|apply recorded_grows].
        apply frame_grows; [done..|lia].
      * intros Hv. apply recorded_refs_valid; [|done].
        eapply frame_refs_valid; [done..|lia|done].
    + apply update_username_Raise in Eu as (-> & _). split; [apply grows_refl|done].
  - simplify_eq. split; [apply grows_refl|done].
  - rewrite add_directive_run in Hrun.
    destruct (get_or_append name cat bl) as [[i|f'] bl1] eqn:Eg; simplify_eq.
    + apply get_or_append_frame in Eg as (Hc & Hp & Hlen & j & [= <-] & Hj). split.
      * eapply grows_trans; [|apply recorded_grows]. by apply frame_grows.
      * intros Hv. apply recorded_refs_valid.
        -- by eapply frame_refs_valid.
        -- by intros ? [= <-].
    + apply get_or_append_frame in Eg as (_ & _ & _ & j & ? & _). done.
  - simplify_eq. split; [apply grows_refl|done].
Qed.

Lemma process_lines_app pre rest target bl :
  process_lines (pre ++ rest) target bl =
  match process_lines pre target bl with
  | (Return target', bl1) => process_lines rest target' bl1
  | (Raise f, bl1) => (Raise f, bl1)
  end.
Proof.
  revert target bl. induction pre as [|raw pre IH]; intros target bl; [done|].
  cbn [app process_lines]. unfold mbind, M_bind.
  destruct (process_line raw target bl) as [[target'|f] bl1]; [|done].
  apply IH.
Qed.

Lemma process_lines_grows lines target bl res bl' :
  process_lines lines target bl = (res, bl') →
  grows bl bl' ∧ (refs_valid bl → refs_valid bl').
Proof.
  revert target bl. induction lines as [|raw lines IH]; intros target bl Hrun.
  - cbv [process_lines mret M_ret] in Hrun. simplify_eq.
    split; [apply grows_refl|done].
  - cbn [process_lines] in Hrun. unfold mbind, M_bind in Hrun.
    destruct (process_line raw target bl) as [[target'|f] bl1] eqn:Eline.
    + apply process_line_grows in Eline as (Hg1 & Hv1).
      apply IH in Hrun as (Hg2 & Hv2).
      split; [by eapply grows_trans|auto].
    + simplify_eq. by apply process_line_grows in Eline.
Qed.

(** A constructed object holds no dangling reference. *)
Lemma Blacklist_init_refs_valid data input self data' :
  Blacklist_init data input = (Return self, data') → refs_valid self.
Proof.
  unfold Blacklist_init. fold (store_of data). intros Hrun.
  destruct (process_lines input "current" (store_of data)) as [[t|f] bl1] eqn:E;
    simplify_eq.
  apply process_lines_grows in E as [_ Hv]. apply Hv.
  intros i Hi. cbn in Hi. by apply elem_of_nil in Hi.
Qed.

End run.

(** The states named above are the states the runs produce, and the
    scenario of the specification's section 8 on the code. *)
Example bob_in_both_run :
  fst (Blacklist_init [] ["Bob Scam"; "# previous"; "bob RMT"; "Carl RMT"])
  = Return bob_in_both.
Proof. reflexivity. Qed.

Example five_changes_run :
  fst (Blacklist_init []
         ["Zed Other"; "Bob Scam"; "Carl RMT"; "Bob -> Robert"; "Al Scam"])
  = Return five_changes.
Proof. reflexivity. Qed.

Example scenario_run :
  Blacklist_init [mkBlacklistEntry "Bob" "Scam"]
    ["Bob Scam"; "# Previous updates"; "Carol RMT"; "Bob -> Robert"]
  = (Return
       {| current_update := [StoreRef 0];
          previous_update :=
            [StoreRef 1;
             Fresh {| base := mkBlacklistEntry "Robert" "Scam"; old_username := "Bob" |}];
          full_blacklist :=
            [mkBlacklistEntry "Robert" "Scam"; mkBlacklistEntry "Carol" "RMT"] |},
     [mkBlacklistEntry "Robert" "Scam"; mkBlacklistEntry "Carol" "RMT"]).
Proof. reflexivity. Qed.

(** ** Claims on the changelog loop *)

(** C10.  The branch that prints the line and raises "Unable to process
    input line." is never taken: on a stripped line that holds a space the
    split at the last space gives a non-empty username and a non-empty
    category, so no line makes [process_line] raise that error; and a
    stripped line that is not blank, not a comment, holds no [" -> "] and
    no space fails before the branch, in the tuple assignment, with the
    unpacking [ValueError]. *)
Theorem input_line_error_unreachable :
  (∀ raw, Str.contains " " (Str.strip raw) = true →
     ∃ name cat, Str.rsplit1 " " (Str.strip raw) = [name; cat] ∧ name ≠ "" ∧ cat ≠ "") ∧
  (∀ raw target bl f bl',
     process_line raw target bl = (Raise f, bl') →
     f ≠ input_line_failure (Str.strip raw) ∧
     raised f ≠ RuntimeError "Unable to process input line.") ∧
  (∀ raw target bl,
     Str.strip raw ≠ "" →
     (∀ s, Str.strip raw ≠ String "#" s) →
     Str.contains " -> " (Str.strip raw) = false →
     Str.contains " " (Str.strip raw) = false →
     process_line raw target bl =
       (Raise {| printed := "";
                 raised := ValueError "not enough values to unpack (expected 2, got 1)" |},
        bl)).
Proof.
  split_and!.
  - intros raw Hsp.
    destruct (Str.rcut " " (Str.strip raw)) as [[name cat]|] eqn:Ecut.
    + assert (Hparts : Str.rsplit1 " " (Str.strip raw) = [name; cat]).
      { unfold Str.rsplit1. by rewrite Ecut. }
      exists name, cat. split; [done|].
      apply rsplit1_strip in Hparts as [? ?]. split; by apply truthy_true.
    + apply rcut_None in Ecut. congruence.
  - intros raw target bl f bl' Hrun.
    apply process_line_Raise in Hrun as (_ & [->|[->|(old & new & _ & ->)]]); done.
  - intros raw target bl Hne Hcomment Harrow Hspace.
    destruct (process_line_shape raw target bl)
      as [? Heq|s ? Heq|old new ? Hsplit Heq|? ? Heq|name cat ? Hparts ? ? Heq|? ? ? Heq].
    + done.
    + by destruct (Hcomment s).
    + congruence.
    + congruence.
    + apply rcut_None in Hspace. unfold Str.rsplit1 in Hparts.
      by rewrite Hspace in Hparts.
    + done.
Qed.

Lemma input_line_error_unreachable_witness :
  (∃ name cat, Str.rsplit1 " " (Str.strip "  Space Man  RMT ") = [name; cat]
               ∧ name ≠ "" ∧ cat ≠ "") ∧
  raised (unpack_error 3) ≠ RuntimeError "Unable to process input line." ∧
  process_line " Bob " "current" only_bob =
    (Raise {| printed := "";
              raised := ValueError "not enough values to unpack (expected 2, got 1)" |},
     only_bob).
Proof.
  destruct input_line_error_unreachable as (Hsplit & Hnever & Hunpack).
  split_and!.
  - apply (Hsplit "  Space Man  RMT "). reflexivity.
  - apply (Hnever "a -> b -> c" "current" only_bob (unpack_error 3) only_bob).
    reflexivity.
  - apply (Hunpack " Bob " "current" only_bob); [done|done|reflexivity..].
Defined.

(** C3 (the code does not do this).  The changelog line [Bob], an add
    line without a category, aborts the run in the tuple assignment: the
    run raises the unpacking [ValueError], nothing is printed, and the
    report does not show the line. *)
Theorem missing_category_report :
  ∃ f, Blacklist_init [] ["Bob" +:+ Str.nl] = (Raise f, []) ∧
       printed f = "" ∧
       raised f = ValueError "not enough values to unpack (expected 2, got 1)" ∧
       Str.contains "Bob" (report f) = false.
Proof. eexists. split_and!; reflexivity. Qed.

(** C4.  A failed directive stops the run before the save: when the
    lines before [raw] succeed and [raw] raises, [Blacklist()] raises
    that failure and the data file is what it was; the file is written,
    with the store at the end of the loop, only when every line has been
    processed.  A line that raises leaves the object unmutated, and so
    does a rename that raises. *)
Theorem failed_run_keeps_data (data : list BlacklistEntry) (input : list string) :
  (∀ pre raw post target bl f bl',
     input = pre ++ raw :: post →
     process_lines pre "current" (store_of data) = (Return target, bl) →
     process_line raw target bl = (Raise f, bl') →
     Blacklist_init data input = (Raise f, data) ∧ bl' = bl) ∧
  (∀ f data', Blacklist_init data input = (Raise f, data') → data' = data) ∧
  (∀ self data',
     Blacklist_init data input = (Return self, data') →
     data' = full_blacklist self ∧
     ∃ target, process_lines input "current" (store_of data) = (Return target, self)) ∧
  (∀ old new bl f bl', update_username old new bl = (Raise f, bl') → bl' = bl).
Proof.
  split_and!.
  - intros pre raw post target bl f bl' -> Hpre Hraw. split.
    + unfold Blacklist_init. fold (store_of data).
      rewrite process_lines_app, Hpre. cbn [process_lines].
      unfold mbind, M_bind. by rewrite Hraw.
    + by apply process_line_Raise in Hraw as [-> _].
  - unfold Blacklist_init. intros f data' Hrun.
    destruct (process_lines input "current" _) as [[target|f'] self']; by simplify_eq.
  - unfold Blacklist_init. fold (store_of data). intros self data' Hrun.
    destruct (process_lines input "current" (store_of data)) as [[target|f'] self'];
      simplify_eq. split; [done|]. by exists target.
  - intros old new bl f bl' Hrun. by apply update_username_Raise in Hrun as [-> _].
Qed.

Lemma failed_run_keeps_data_witness :
  Blacklist_init [mkBlacklistEntry "Bob" "Scam"] ["Carol RMT"; "Ghost -> Phantom"; "Dave Scam"]
  = (Raise (update_username_failure "Ghost" "Phantom"), [mkBlacklistEntry "Bob" "Scam"]) ∧
  [mkBlacklistEntry "Bob" "Scam"; mkBlacklistEntry "Carol" "RMT"]
  = full_blacklist
      {| current_update := [StoreRef 1]; previous_update := [];
         full_blacklist := [mkBlacklistEntry "Bob" "Scam"; mkBlacklistEntry "Carol" "RMT"] |} ∧
  only_bob = only_bob.
Proof.
  split_and!.
  - apply (proj1 (failed_run_keeps_data [mkBlacklistEntry "Bob" "Scam"]
                    ["Carol RMT"; "Ghost -> Phantom"; "Dave Scam"])
             ["Carol RMT"] "Ghost -> Phantom" ["Dave Scam"] "current"
             {| current_update := [StoreRef 1]; previous_update := [];
                full_blacklist :=
                  [mkBlacklistEntry "Bob" "Scam"; mkBlacklistEntry "Carol" "RMT"] |}
             (update_username_failure "Ghost" "Phantom")
             {| current_update := [StoreRef 1]; previous_update := [];
                full_blacklist :=
                  [mkBlacklistEntry "Bob" "Scam"; mkBlacklistEntry "Carol" "RMT"] |});
      reflexivity.
  - apply (proj1 (proj2 (proj2 (failed_run_keeps_data [mkBlacklistEntry "Bob" "Scam"]
                                  ["Carol RMT"])))).
    reflexivity.
  - apply (proj2 (proj2 (proj2 (failed_run_keeps_data [] [])))
             "Ghost" "Phantom" only_bob (update_username_failure "Ghost" "Phantom")).
    reflexivity.
Defined.

(** ** Epoch records and the store entries they refer to *)

Lemma later_rename_shows_in_record :
  process_lines ["Bob Scam"] "current" (store_of []) = (Return "current", after_bob_scam) ∧
  process_line "Bob -> Robert" "current" after_bob_scam
    = (Return "current", after_bob_robert) ∧
  current_update after_bob_scam !! 0 = Some (StoreRef 0) ∧
  current_update after_bob_robert !! 0 = Some (StoreRef 0) ∧
  observe after_bob_scam (StoreRef 0) = Plain (mkBlacklistEntry "Bob" "Scam") ∧
  observe after_bob_robert (StoreRef 0) = Plain (mkBlacklistEntry "Robert" "Scam").
Proof. split_and!; reflexivity. Qed.




(** * Further properties of the code *)

(** ** Upsert, rename and lookup *)

Section store_more.
Implicit Types bl : Blacklist.
Implicit Types name old new cat : string.

Lemma list_find_insert_same {A} (P : A → Prop) `{!∀ x, Decision (P x)}
    (l : list A) (i : nat) (x y : A) :
  list_find P l = Some (i, x) → P y → list_find P (<[i := y]> l) = Some (i, y).
Proof.
  intros (Hi & HP & Hlt)%list_find_Some Hy. apply list_find_Some. split_and!.
  - apply list_lookup_insert_eq. by eapply lookup_lt_Some.
  - done.
  - intros j z Hj Hji. rewrite list_lookup_insert_ne in Hj by lia. by eapply Hlt.
Qed.

Lemma list_find_insert_other {A} (P : A → Prop) `{!∀ x, Decision (P x)}
    (l : list A) (i : nat) (x y : A) :
  l !! i = Some x → ¬ P x → ¬ P y → list_find P (<[i := y]> l) = list_find P l.
Proof.
  intros Hi Hx Hy. destruct (list_find P l) as [[j z]|] eqn:E.
  - apply list_find_Some in E as (Hj & Hz & Hlt).
    assert (j ≠ i) by (intros ->; by simplify_eq).
    apply list_find_Some. split_and!; [by rewrite list_lookup_insert_ne|done|].
    intros k w Hk Hkj. destruct (decide (k = i)) as [->|Hne].
    + rewrite list_lookup_insert_eq in Hk by (by eapply lookup_lt_Some).
      by simplify_eq.
    + rewrite list_lookup_insert_ne in Hk by done. by eapply Hlt.
  - apply list_find_None. rewrite list_find_None in E.
    rewrite Forall_forall in *. intros w Hw.
    apply list_elem_of_lookup in Hw as [k Hk].
    destruct (decide (k = i)) as [->|Hne].
    + rewrite list_lookup_insert_eq in Hk by (by eapply lookup_lt_Some).
      by simplify_eq.
    + rewrite list_lookup_insert_ne in Hk by done.
      apply E. by eapply list_elem_of_lookup_2.
Qed.

Lemma list_find_snoc_not {A} (P : A → Prop) `{!∀ x, Decision (P x)}
    (l : list A) (y : A) :
  ¬ P y → list_find P (l ++ [y]) = list_find P l.
Proof.
  intros Hy. destruct (list_find P l) as [[j z]|] eqn:E.
  - by apply list_find_app_l.
  - rewrite list_find_app_r by done. simpl. by rewrite decide_False.
Qed.

End store_more.

Lemma get_or_append_lookup (name cat : string) (bl : Blacklist) :
  ∃ i e,
    fst (get_or_append name cat bl) = Return i ∧
    get_entry name (snd (get_or_append name cat bl)) = Some (i, e) ∧
    category e = cat ∧ same_name name e.
Proof.
  unfold get_or_append.
  destruct (get_entry name bl) as [[i e]|] eqn:E; cbn [fst snd].
  - exists i, (set_category cat e). split; [done|].
    pose proof E as (_ & Hn & _)%get_entry_Some.
    rewrite get_entry_set_full_blacklist. split_and!; [|done..].
    by apply (list_find_insert_same _ _ _ e).
  - exists (length (full_blacklist bl)), (mkBlacklistEntry name cat).
    split; [done|]. rewrite get_entry_set_full_blacklist. split_and!; [|done..].
    rewrite list_find_app_r by done. simpl.
    rewrite decide_True by reflexivity. reflexivity.
Qed.

(** X1.  Looking up a username right after its upsert finds the entry
    the upsert returned, and that entry carries the upserted category
    under a username equal to the upserted one case-insensitively. *)
Theorem get_or_append_then_get_entry (name cat : string) (bl : Blacklist)
    (res : result nat) (bl' : Blacklist) :
  get_or_append name cat bl = (res, bl') →
  ∃ i e,
    res = Return i ∧ get_entry name bl' = Some (i, e) ∧
    full_blacklist bl' !! i = Some e ∧ category e = cat ∧ same_name name e.
Proof.
  intros Hrun.
  destruct (get_or_append_lookup name cat bl) as (i & e & Hres & Hget & Hcat & Hn).
  rewrite Hrun in Hres, Hget. cbn [fst snd] in Hres, Hget.
  exists i, e. split_and!; [done..| |done|done].
  by apply get_entry_Some in Hget as (? & _).
Qed.

Lemma get_or_append_then_get_entry_witness :
  ∃ i e,
    Return 0 = Return i ∧
    get_entry "BOB" (store_of [mkBlacklistEntry "Bob" "RMT"]) = Some (i, e) ∧
    full_blacklist (store_of [mkBlacklistEntry "Bob" "RMT"]) !! i = Some e ∧
    category e = "RMT" ∧ same_name "BOB" e.
Proof.
  apply (get_or_append_then_get_entry "BOB" "RMT" only_bob (Return 0)
           (store_of [mkBlacklistEntry "Bob" "RMT"])).
  reflexivity.
Defined.

Lemma get_or_append_other (name cat other : string) (bl : Blacklist) :
  Str.lower other ≠ Str.lower name →
  get_entry other (snd (get_or_append name cat bl)) = get_entry other bl.
Proof.
  intros Hne. unfold get_or_append.
  destruct (get_entry name bl) as [[i e]|] eqn:E; cbn [fst snd];
    rewrite get_entry_set_full_blacklist.
  - apply get_entry_Some in E as (Hi & Hn & _).
    apply (list_find_insert_other _ _ _ e); [done|..];
      unfold same_name in *; simpl; congruence.
  - apply list_find_snoc_not. unfold same_name. simpl. congruence.
Qed.

(** X2.  An upsert of one username leaves the lookup of every username
    that differs from it case-insensitively as it was: the same entry is
    found, with the same fields, or none as before. *)
Theorem get_or_append_other_name (name cat other : string) (bl : Blacklist)
    (res : result nat) (bl' : Blacklist) :
  Str.lower other ≠ Str.lower name →
  get_or_append name cat bl = (res, bl') →
  get_entry other bl' = get_entry other bl.
Proof.
  intros Hne Hrun.
  pose proof (get_or_append_other name cat other bl Hne) as Hother.
  rewrite Hrun in Hother. exact Hother.
Qed.

Lemma get_or_append_other_name_witness :
  get_entry "Bob" (store_of [mkBlacklistEntry "Bob" "Scam"; mkBlacklistEntry "Carol" "RMT"])
  = get_entry "Bob" only_bob.
Proof.
  apply (get_or_append_other_name "Carol" "RMT" "Bob" only_bob (Return 1)); done.
Defined.



(** X4.  A rename, whether it succeeds or raises, never adds or removes
    an entry and never changes a category: the categories of the store,
    in order, are what they were, every entry other than the returned one
    is as it was, and the epoch lists are untouched. *)
Theorem update_username_frame_categories (old new : string) (bl : Blacklist)
    (res : result nat) (bl' : Blacklist) :
  update_username old new bl = (res, bl') →
  categories bl' = categories bl ∧
  length (full_blacklist bl') = length (full_blacklist bl) ∧
  (∀ i j, res = Return i → j ≠ i →
          full_blacklist bl' !! j = full_blacklist bl !! j) ∧
  current_update bl' = current_update bl ∧
  previous_update bl' = previous_update bl.
Proof.
  unfold update_username, categories. intros Hrun.
  destruct (get_entry new bl) as [[j e]|] eqn:Enew; simplify_eq/=; [done|].
  destruct (get_entry old bl) as [[j e]|] eqn:Eold; simplify_eq/=; [|done].
  apply get_entry_Some in Eold as (Hj & _ & _). split_and!; [..|done|done].
  - rewrite list_fmap_insert. simpl. apply list_insert_id.
    by rewrite list_lookup_fmap, Hj.
  - apply length_insert.
  - intros i k [= <-] Hk. by rewrite list_lookup_insert_ne.
Qed.

Lemma update_username_frame_categories_witness :
  categories (store_of [mkBlacklistEntry "Robert" "Scam"]) = categories only_bob.
Proof.
  apply (update_username_frame_categories "Bob" "Robert" only_bob (Return 0)
           (store_of [mkBlacklistEntry "Robert" "Scam"])).
  reflexivity.
Defined.

(** X5.  After a successful rename the lookup of [new] finds the
    returned entry.  When the store had no two usernames equal
    case-insensitively and no entry for [new], and [old] differs from
    [new] case-insensitively, the lookup of [old] finds nothing any
    more. *)
Theorem update_username_then_get_entry (old new : string) (bl : Blacklist)
    (i : nat) (bl' : Blacklist) :
  update_username old new bl = (Return i, bl') →
  (∃ e, get_entry new bl' = Some (i, e)) ∧
  (unique_usernames bl → ¬ has_name new (full_blacklist bl) →
   Str.lower old ≠ Str.lower new → get_entry old bl' = None).
Proof.
  unfold update_username. intros Hrun.
  destruct (get_entry new bl) as [[j e]|] eqn:Enew; simplify_eq/=.
  { split; [by exists e|]. intros _ Hno. destruct Hno.
    apply get_entry_Some in Enew as (Hi & Hn & _).
    exists e. split; [by eapply list_elem_of_lookup_2|done]. }
  destruct (get_entry old bl) as [[j e]|] eqn:Eold; simplify_eq/=.
  pose proof Eold as (Hi & Hold & _)%get_entry_Some. split.
  - exists (set_username new e). by apply get_entry_after_rename.
  - intros Hnd _ Hne. rewrite get_entry_set_full_blacklist.
    apply list_find_None, Forall_forall. intros y Hy Hsame.
    apply list_elem_of_lookup in Hy as [k Hk].
    apply list_lookup_insert_Some in Hk as [(-> & <- & _)|(Hki & Hk)].
    + unfold same_name in Hsame. simpl in Hsame. congruence.
    + unfold unique_usernames in Hnd.
      apply (NoDup_lookup _ i k (Str.lower old)) in Hnd; [done|..];
        rewrite list_lookup_fmap; [rewrite Hi|rewrite Hk]; simpl; by f_equal.
Qed.

Lemma update_username_then_get_entry_witness :
  (∃ e, get_entry "Robert" (store_of [mkBlacklistEntry "Robert" "Scam"]) = Some (0, e)) ∧
  get_entry "Bob" (store_of [mkBlacklistEntry "Robert" "Scam"]) = None.
Proof.
  pose proof (update_username_then_get_entry "Bob" "Robert" only_bob 0
                (store_of [mkBlacklistEntry "Robert" "Scam"]) eq_refl) as [H1 H2].
  split; [exact H1|]. apply H2.
  - apply NoDup_singleton.
  - by apply only_bob_no_name.
  - done.
Defined.

(** ** More on the string built-ins *)

Section strings_more.
Implicit Types s t u v sep cur rest : string.
Implicit Types c : ascii.

Lemma append_cons c s t : String c s +:+ t = String c (s +:+ t).
Proof. reflexivity. Qed.

Lemma prefix_cons a s1 b s2 :
  String.prefix (String a s1) (String b s2)
  = if ascii_dec a b then String.prefix s1 s2 else false.
Proof. reflexivity. Qed.

Lemma prefix_split sep s : String.prefix sep s = true → ∃ rest, s = sep +:+ rest.
Proof.
  revert s. induction sep as [|a sep IH]; intros s Hp.
  - by exists s.
  - destruct s as [|b s]; [done|]. rewrite prefix_cons in Hp.
    destruct (ascii_dec a b) as [->|]; [|done].
    destruct (IH s Hp) as [rest ->]. by exists rest.
Qed.

Lemma split_go_skip sep t rest cur :
  Str.split_go sep (String.length t) cur (t +:+ rest) = Str.split_go sep 0 cur rest.
Proof. induction t as [|c t IH]; [done|]. exact IH. Qed.

Lemma split_go_cons sep cur c s :
  Str.split_go sep 0 cur (String c s) =
  if String.prefix sep (String c s)
  then cur :: Str.split_go sep (String.length sep - 1) "" s
  else Str.split_go sep 0 (cur +:+ String c "") s.
Proof. reflexivity. Qed.

Lemma split_go_not_nil sep k cur s : Str.split_go sep k cur s ≠ [].
Proof.
  revert k cur. induction s as [|c s IH]; intros k cur; [done|].
  destruct k as [|k]; [|apply IH].
  rewrite split_go_cons. destruct (String.prefix sep (String c s)); [done|apply IH].
Qed.

Lemma concat_cons sep s (l : list string) :
  l ≠ [] → String.concat sep (s :: l) = s +:+ sep +:+ String.concat sep l.
Proof. by destruct l. Qed.

Lemma length_append s t : String.length (s +:+ t) = String.length s + String.length t.
Proof. induction s as [|c s IH]; [done|]. rewrite append_cons. simpl. by rewrite IH. Qed.

(** Joining the pieces of a split with the separator gives the string
    back. *)
Lemma join_split_go sep cur s :
  sep ≠ "" → join sep (Str.split_go sep 0 cur s) = cur +:+ s.
Proof.
  intros Hsep. unfold join.
  remember (String.length s) as n eqn:Hn. revert cur s Hn.
  induction (lt_wf n) as [n _ IH]. intros cur s ->.
  destruct s as [|c s]; [by rewrite append_empty_r|].
  rewrite split_go_cons. destruct (String.prefix sep (String c s)) eqn:Hp.
  - apply prefix_split in Hp as [rest Hrest].
    destruct sep as [|a sep]; [done|].
    rewrite append_cons in Hrest. simplify_eq.
    replace (String.length (String a sep) - 1) with (String.length sep)
      by (simpl; lia).
    rewrite split_go_skip, concat_cons by apply split_go_not_nil.
    rewrite (IH (String.length rest)); [done| |done].
    simpl. rewrite length_append. lia.
  - rewrite (IH (String.length s)); [|simpl; lia|done].
    by rewrite append_assoc.
Qed.

Lemma join_split sep s : sep ≠ "" → join sep (Str.split sep s) = s.
Proof. intros Hsep. unfold Str.split. by rewrite join_split_go. Qed.

Lemma append_nil_inv s t : s +:+ t = "" → s = "" ∧ t = "".
Proof. by destruct s. Qed.

(** A right-stripped string does not end with a character that
    [strip] removes. *)
Lemma rstrip_last t u c : Str.rstrip t = u +:+ String c "" → Str.isspace c = false.
Proof.
  revert u. induction t as [|a t IH]; intros u; simpl.
  - by destruct u.
  - destruct (Str.rstrip t) as [|b r] eqn:Er.
    + destruct (Str.isspace a) eqn:Ea; [by destruct u|].
      destruct u as [|a' u].
      { change ("" +:+ String c "") with (String c ""). intros ?. by simplify_eq. }
      rewrite append_cons. intros ?. simplify_eq. by destruct u.
    + destruct u as [|a' u]; [done|].
      rewrite append_cons. intros ?. simplify_eq. by eapply IH.
Qed.

Lemma strip_last (raw : string) u c : Str.strip raw = u +:+ String c "" → Str.isspace c = false.
Proof. unfold Str.strip. apply rstrip_last. Qed.

(** The cut at the last [sep]: the two sides, put back around [sep], are
    the string, and the right side holds no [sep]. *)
Lemma rcut_Some (sep : ascii) s u v :
  Str.rcut sep s = Some (u, v) → s = u +:+ String sep v ∧ Str.rcut sep v = None.
Proof.
  revert u. induction s as [|c s IH]; intros u; [done|].
  rewrite rcut_cons. destruct (Str.rcut sep s) as [[u' v']|] eqn:E.
  - intros ?. simplify_eq. destruct (IH u' eq_refl) as [-> Hv]. by rewrite append_cons.
  - case_decide; [|done]. intros ?. by simplify_eq.
Qed.

Lemma rcut_None_contains (sep : ascii) s :
  Str.rcut sep s = None ↔ Str.contains (String sep "") s = false.
Proof.
  induction s as [|c s IH]; [done|].
  rewrite rcut_cons, contains_cons, prefix_char.
  destruct (Str.rcut sep s) as [[u v]|].
  - split; [done|]. intros [_ H]%orb_false_iff. by apply IH in H.
  - destruct IH as [IH _]. rewrite IH by done. rewrite orb_false_r.
    case_decide.
    + by rewrite bool_decide_eq_true_2.
    + by rewrite bool_decide_eq_false_2.
Qed.

(** On a stripped line, the cut at the last [sep], for a [sep] that
    [strip] removes, has two non-empty sides. *)
Lemma rcut_strip (sep : ascii) (raw : string) u v :
  Str.isspace sep = true →
  Str.rcut sep (Str.strip raw) = Some (u, v) → u ≠ "" ∧ v ≠ "".
Proof.
  intros Hsp Hcut. pose proof Hcut as [Heq _]%rcut_Some. split; intros ->.
  - apply strip_head in Heq. congruence.
  - apply strip_last in Heq. congruence.
Qed.

End strings_more.

(** ** More on the changelog loop *)

Section line_text.
Implicit Types bl : Blacklist.
Implicit Types raw target name old new cat : string.

Lemma recorded_lists entry target bl :
  full_blacklist (recorded entry target bl) = full_blacklist bl ∧
  if Str.contains "previous" target
  then current_update (recorded entry target bl) = current_update bl ∧
       previous_update (recorded entry target bl) = previous_update bl ++ [entry]
  else current_update (recorded entry target bl) = current_update bl ++ [entry] ∧
       previous_update (recorded entry target bl) = previous_update bl.
Proof.
  unfold recorded, add_to_updates. by destruct (Str.contains "previous" target).
Qed.

Lemma is_skipped_not_directive raw : is_skipped raw → is_directive raw → False.
Proof. intros [Hb|[s Hs]] [Hne Hc]; [done|by destruct (Hc s)]. Qed.

(** The text of a rename line around its separator. *)
Lemma rename_parse raw old new :
  Str.split " -> " (Str.strip raw) = [old; new] →
  Str.strip raw = old +:+ " -> " +:+ new ∧ old ≠ "" ∧ new ≠ "".
Proof.
  intros Hsplit.
  assert (Heq : Str.strip raw = old +:+ " -> " +:+ new).
  { rewrite <-(join_split " -> " (Str.strip raw)) at 1 by done. by rewrite Hsplit. }
  split; [done|]. split; intros ->.
  - apply strip_head in Heq. done.
  - change (old +:+ " -> " +:+ "") with (old +:+ " ->" +:+ String " " "") in Heq.
    rewrite <-append_assoc in Heq. apply strip_last in Heq. done.
Qed.

(** The text of an add line around its last space. *)
Lemma add_parse raw name cat :
  Str.rsplit1 " " (Str.strip raw) = [name; cat] →
  Str.strip raw = name +:+ " " +:+ cat ∧ name ≠ "" ∧ cat ≠ "" ∧
  Str.contains " " cat = false.
Proof.
  unfold Str.rsplit1.
  destruct (Str.rcut " " (Str.strip raw)) as [[u v]|] eqn:E; [|done].
  intros ?. simplify_eq.
  pose proof (rcut_strip " " raw name cat eq_refl E) as [? ?].
  apply rcut_Some in E as [Heq Hnone]. split_and!; [done..|].
  by apply rcut_None_contains.
Qed.

End line_text.

(** X6.  How a directive line is read.  A rename line with one
    separator is [old], the separator, [new], both non-empty, and is
    processed as the rename of [old] to [new].  Any other directive line
    that holds a space is the username, one space, the category, where
    the category is the non-empty text after the last space and the
    username the non-empty text before it, and is processed as the upsert
    of that username with that category. *)
Theorem directive_line_parse (raw target : string) (bl : Blacklist) :
  is_directive raw →
  (∀ old new,
     Str.contains " -> " (Str.strip raw) = true →
     Str.split " -> " (Str.strip raw) = [old; new] →
     Str.strip raw = old +:+ " -> " +:+ new ∧ old ≠ "" ∧ new ≠ "" ∧
     process_line raw target bl = rename_directive old new target bl) ∧
  (∀ name cat,
     Str.contains " -> " (Str.strip raw) = false →
     Str.rsplit1 " " (Str.strip raw) = [name; cat] →
     Str.strip raw = name +:+ " " +:+ cat ∧ name ≠ "" ∧ cat ≠ "" ∧
     Str.contains " " cat = false ∧
     process_line raw target bl = add_directive name cat target bl).
Proof.
  intros [Hne Hcomment]. split.
  - intros old new Harrow Hsplit.
    destruct (rename_parse raw old new Hsplit) as (? & ? & ?). split_and!; [done..|].
    destruct (process_line_shape raw target bl)
      as [? Heq|s ? Heq|old' new' ? Hsplit' Heq|? Hlen Heq|? ? ? ? ? ? Heq|? ? ? Heq].
    + done.
    + by destruct (Hcomment s).
    + congruence.
    + by rewrite Hsplit in Hlen.
    + congruence.
    + congruence.
  - intros name cat Harrow Hparts.
    destruct (add_parse raw name cat Hparts) as (? & ? & ? & ?). split_and!; [done..|].
    destruct (process_line_shape raw target bl)
      as [? Heq|s ? Heq|? ? ? ? Heq|? ? Heq|name' cat' ? Hparts' ? ? Heq|? ? Hsp Heq].
    + done.
    + by destruct (Hcomment s).
    + congruence.
    + congruence.
    + congruence.
    + apply rcut_None in Hsp. unfold Str.rsplit1 in Hparts. by rewrite Hsp in Hparts.
Qed.

Lemma directive_line_parse_witness :
  (Str.strip " Bob -> Robert " = "Bob" +:+ " -> " +:+ "Robert" ∧ "Bob" ≠ "" ∧ "Robert" ≠ "" ∧
   process_line " Bob -> Robert " "current" only_bob
   = rename_directive "Bob" "Robert" "current" only_bob) ∧
  (Str.strip "Space Man RMT" = "Space Man" +:+ " " +:+ "RMT" ∧ "Space Man" ≠ "" ∧
   "RMT" ≠ "" ∧ Str.contains " " "RMT" = false ∧
   process_line "Space Man RMT" "current" only_bob
   = add_directive "Space Man" "RMT" "current" only_bob).
Proof.
  split.
  - apply (directive_line_parse " Bob -> Robert " "current" only_bob);
      [by split|reflexivity..].
  - apply (directive_line_parse "Space Man RMT" "current" only_bob);
      [by split|reflexivity..].
Defined.

Section epoch_switch.
Implicit Types bl : Blacklist.
Implicit Types raw target name old new cat : string.

Lemma process_line_previous raw target bl res bl' :
  Str.contains "previous" target = true →
  process_line raw target bl = (res, bl') →
  current_update bl' = current_update bl ∧
  ∀ t, res = Return t → Str.contains "previous" t = true.
Proof.
  intros Hprev Hrun.
  destruct (process_line_shape raw target bl)
    as [? Heq|? ? Heq|old new ? Hsplit Heq|? ? Heq|name cat ? ? ? ? Heq|? ? ? Heq];
    rewrite Heq in Hrun.
  - simplify_eq. split; [done|]. by intros t [= <-].
  - simplify_eq. split; [done|]. intros t [= <-].
    by destruct (Str.contains "previous" (Str.lower (Str.strip raw))).
  - rewrite rename_directive_run in Hrun.
    destruct (update_username old new bl) as [[i|f'] bl1] eqn:Eu; simplify_eq.
    + apply update_username_frame in Eu as (Hc & _).
      pose proof (recorded_lists
        (Fresh {| base := deref bl1 i; old_username := old |}) target bl1) as [_ Hl].
      rewrite Hprev in Hl. destruct Hl as [-> _]. split; [done|]. by intros t [= <-].
    + apply update_username_Raise in Eu as (-> & _). by split.
  - by simplify_eq.
  - rewrite add_directive_run in Hrun.
    destruct (get_or_append name cat bl) as [[i|f'] bl1] eqn:Eg; simplify_eq.
    + apply get_or_append_frame in Eg as (Hc & _).
      pose proof (recorded_lists (StoreRef i) target bl1) as [_ Hl].
      rewrite Hprev in Hl. destruct Hl as [-> _]. split; [done|]. by intros t [= <-].
    + apply get_or_append_frame in Eg as (_ & _ & _ & j & ? & _). done.
  - by simplify_eq.
Qed.

End epoch_switch.

(** X7.  The switch to the previous epoch is final.  Once [target] holds
    "previous", whatever lines follow, comment lines included, the
    current epoch list receives nothing more and [target] still holds
    "previous" after them. *)
Theorem previous_epoch_is_final (lines : list string) (target : string)
    (bl : Blacklist) (res : result string) (bl' : Blacklist) :
  Str.contains "previous" target = true →
  process_lines lines target bl = (res, bl') →
  current_update bl' = current_update bl ∧
  ∀ t, res = Return t → Str.contains "previous" t = true.
Proof.
  revert target bl. induction lines as [|raw lines IH]; intros target bl Hprev Hrun.
  - cbv [process_lines mret M_ret] in Hrun. simplify_eq. split; [done|].
    by intros t [= <-].
  - cbn [process_lines] in Hrun. unfold mbind, M_bind in Hrun.
    destruct (process_line raw target bl) as [[target'|f] bl1] eqn:Eline.
    + apply process_line_previous in Eline as [Hc Ht]; [|done].
      apply IH in Hrun as [Hc' Ht']; [|by apply Ht]. split; [congruence|done].
    + simplify_eq. apply process_line_previous in Eline as [Hc _]; [|done].
      by split.
Qed.

Lemma previous_epoch_is_final_witness :
  current_update
    {| current_update := [StoreRef 0]; previous_update := [StoreRef 1];
       full_blacklist := [mkBlacklistEntry "Bob" "Scam"; mkBlacklistEntry "Carol" "RMT"] |}
  = current_update after_bob_scam.
Proof.
  apply (previous_epoch_is_final ["# current again"; "Carol RMT"] "previous"
           after_bob_scam (Return "previous")); reflexivity.
Defined.

Section skipped_lines.
Implicit Types bl : Blacklist.
Implicit Types raw target name old new cat : string.

Lemma process_line_skipped raw target bl :
  is_skipped raw → ∃ t, process_line raw target bl = (Return t, bl).
Proof.
  unfold process_line. intros [->|[s ->]]; [by eexists|].
  rewrite decide_True by done. by eexists.
Qed.

Lemma process_lines_skipped lines target bl :
  Forall is_skipped lines → ∃ t, process_lines lines target bl = (Return t, bl).
Proof.
  intros Hall. revert target. induction Hall as [|raw lines Hraw _ IH]; intros target.
  - by eexists.
  - cbn [process_lines]. unfold mbind, M_bind.
    destruct (process_line_skipped raw target bl Hraw) as [t ->]. apply IH.
Qed.

End skipped_lines.

(** X8.  A changelog of blank and comment lines only changes nothing:
    the loop ends normally with the object as it was, and [Blacklist()]
    builds the store of the data file with empty epoch lists and writes
    the data file back as it was. *)
Theorem comments_change_nothing (data : list BlacklistEntry) (lines : list string)
    (target : string) (bl : Blacklist) :
  Forall is_skipped lines →
  (∃ t, process_lines lines target bl = (Return t, bl)) ∧
  Blacklist_init data lines = (Return (store_of data), data).
Proof.
  intros Hall. split; [by apply process_lines_skipped|].
  unfold Blacklist_init. fold (store_of data).
  by destruct (process_lines_skipped lines "current" (store_of data) Hall) as [t ->].
Qed.

Lemma comments_change_nothing_witness :
  Blacklist_init [mkBlacklistEntry "Bob" "Scam"] [""; "# Bob -> Robert"; "  "; "#previous"]
  = (Return only_bob, [mkBlacklistEntry "Bob" "Scam"]).
Proof.
  apply (comments_change_nothing [mkBlacklistEntry "Bob" "Scam"]
           [""; "# Bob -> Robert"; "  "; "#previous"] "current" only_bob).
  apply Forall_cons; split; [by left|].
  apply Forall_cons; split; [right; by eexists|].
  apply Forall_cons; split; [by left|].
  apply Forall_cons; split; [right; by eexists|].
  apply Forall_nil_2.
Defined.

Section empty_usernames.
Implicit Types bl : Blacklist.
Implicit Types raw target name old new cat : string.

Lemma get_or_append_no_empty name cat bl res bl' :
  name ≠ "" → no_empty_username bl →
  get_or_append name cat bl = (res, bl') → no_empty_username bl'.
Proof.
  unfold no_empty_username, get_or_append. intros Hname Hall Hrun.
  destruct (get_entry name bl) as [[i e]|] eqn:E; simplify_eq/=.
  - apply get_entry_Some in E as (Hi & _ & _).
    apply Forall_insert; [done|]. simpl.
    by apply (Forall_lookup_1 _ _ _ _ Hall Hi).
  - apply Forall_app. split; [done|]. by constructor.
Qed.

Lemma update_username_no_empty old new bl res bl' :
  new ≠ "" → no_empty_username bl →
  update_username old new bl = (res, bl') → no_empty_username bl'.
Proof.
  unfold no_empty_username, update_username. intros Hnew Hall Hrun.
  destruct (get_entry new bl) as [[i e]|] eqn:Enew; simplify_eq/=; [done|].
  destruct (get_entry old bl) as [[i e]|] eqn:Eold; simplify_eq/=; [|done].
  by apply Forall_insert.
Qed.

Lemma recorded_no_empty entry target bl :
  no_empty_username bl → no_empty_username (recorded entry target bl).
Proof.
  unfold no_empty_username. by destruct (recorded_lists entry target bl) as [-> _].
Qed.

Lemma process_line_no_empty raw target bl res bl' :
  no_empty_username bl →
  process_line raw target bl = (res, bl') → no_empty_username bl'.
Proof.
  intros Hall Hrun.
  destruct (process_line_shape raw target bl)
    as [? Heq|? ? Heq|old new ? Hsplit Heq|? ? Heq|name cat ? ? ? ? Heq|? ? ? Heq];
    rewrite Heq in Hrun; try (by simplify_eq).
  - apply rename_parse in Hsplit as (_ & _ & Hnew).
    rewrite rename_directive_run in Hrun.
    destruct (update_username old new bl) as [[i|f'] bl1] eqn:Eu; simplify_eq.
    + apply recorded_no_empty.
      by apply (update_username_no_empty old new bl (Return i) bl1).
    + by apply (update_username_no_empty old new bl (Raise f') bl').
  - rewrite add_directive_run in Hrun.
    destruct (get_or_append name cat bl) as [[i|f'] bl1] eqn:Eg; simplify_eq.
    + apply recorded_no_empty.
      by apply (get_or_append_no_empty name cat bl (Return i) bl1).
    + by apply (get_or_append_no_empty name cat bl (Raise f') bl').
Qed.

Lemma process_lines_no_empty lines target bl res bl' :
  no_empty_username bl →
  process_lines lines target bl = (res, bl') → no_empty_username bl'.
Proof.
  revert target bl. induction lines as [|raw lines IH]; intros target bl Hall Hrun.
  - cbv [process_lines mret M_ret] in Hrun. by simplify_eq.
  - cbn [process_lines] in Hrun. unfold mbind, M_bind in Hrun.
    destruct (process_line raw target bl) as [[target'|f] bl1] eqn:Eline.
    + eapply IH; [|done]. by eapply process_line_no_empty.
    + simplify_eq. by eapply process_line_no_empty.
Qed.

End empty_usernames.

(** X9.  The changelog never brings an empty username into the store:
    when the data file holds no entry with the empty username, neither
    does the object that [Blacklist()] builds, nor the data file
    afterwards, whether the run succeeds or fails. *)
Theorem no_empty_username_invariant (data : list BlacklistEntry) (input : list string)
    (res : result Blacklist) (data' : list BlacklistEntry) :
  Forall (λ e, username e ≠ "") data →
  Blacklist_init data input = (res, data') →
  Forall (λ e, username e ≠ "") data' ∧
  ∀ self, res = Return self → no_empty_username self.
Proof.
  unfold Blacklist_init. fold (store_of data). intros Hall Hinit.
  destruct (process_lines input "current" (store_of data)) as [[t|f] self'] eqn:E;
    simplify_eq; [|done].
  apply process_lines_no_empty in E; [|done]. split; [done|]. by intros self [= <-].
Qed.

Lemma no_empty_username_invariant_witness :
  Forall (λ e, username e ≠ "") [mkBlacklistEntry "Robert" "Scam"].
Proof.
  apply (no_empty_username_invariant [mkBlacklistEntry "Bob" "Scam"] ["Bob -> Robert"]
           (Return {| current_update :=
                        [Fresh {| base := mkBlacklistEntry "Robert" "Scam";
                                  old_username := "Bob" |}];
                      previous_update := [];
                      full_blacklist := [mkBlacklistEntry "Robert" "Scam"] |})
           [mkBlacklistEntry "Robert" "Scam"]); [|reflexivity].
  apply Forall_cons; split; [done|apply Forall_nil_2].
Defined.

Section deref_facts.
Implicit Types bl : Blacklist.
Implicit Types raw target name old new cat : string.


End deref_facts.



(** ** The data file *)

Section data_file.
Implicit Types x : gmap string string.
Implicit Types e : BlacklistEntry.

Lemma dom_to_json e : dom (to_json e) = {["username"; "category"]}.
Proof.
  unfold to_json. rewrite !dom_insert_L, dom_empty_L. by rewrite (right_id_L ∅ (∪)).
Qed.

Lemma to_json_username e : to_json e !! "username" = Some (username e).
Proof. unfold to_json. by rewrite lookup_insert_eq. Qed.

Lemma to_json_category e : to_json e !! "category" = Some (category e).
Proof. unfold to_json. by rewrite lookup_insert_ne, lookup_insert_eq. Qed.

Lemma kwargs_to_json e : BlacklistEntry_kwargs (to_json e) = Some e.
Proof.
  unfold BlacklistEntry_kwargs.
  rewrite to_json_username, to_json_category, dom_to_json, decide_True by done.
  by destruct e.
Qed.

Lemma kwargs_Some x e : BlacklistEntry_kwargs x = Some e → to_json e = x.
Proof.
  unfold BlacklistEntry_kwargs.
  destruct (x !! "username") as [u|] eqn:Hu; [|done].
  destruct (x !! "category") as [c|] eqn:Hc; [|done].
  case_decide as Hdom; [|done]. intros ?. simplify_eq.
  apply map_eq. intros k. unfold to_json. simpl.
  destruct (decide (k = "username")) as [->|Hk1]; [by rewrite lookup_insert_eq|].
  rewrite lookup_insert_ne by done.
  destruct (decide (k = "category")) as [->|Hk2]; [by rewrite lookup_insert_eq|].
  rewrite lookup_insert_ne, lookup_empty by done.
  symmetry. apply not_elem_of_dom. rewrite Hdom.
  rewrite elem_of_union, !elem_of_singleton. by intros [?|?].
Qed.

Lemma kwargs_is_Some x :
  is_Some (BlacklistEntry_kwargs x) ↔ dom x = {["username"; "category"]}.
Proof.
  split.
  - intros [e <-%kwargs_Some]. apply dom_to_json.
  - intros Hdom. unfold BlacklistEntry_kwargs.
    assert (is_Some (x !! "username")) as [u ->].
    { apply elem_of_dom. rewrite Hdom. apply elem_of_union_l. by apply elem_of_singleton. }
    assert (is_Some (x !! "category")) as [c ->].
    { apply elem_of_dom. rewrite Hdom. apply elem_of_union_r. by apply elem_of_singleton. }
    by rewrite decide_True.
Qed.

End data_file.

(** X11.  Saving and loading are inverse to each other: the objects
    that [save_blacklist] writes load back as the entries of the store,
    in order; a data file that loads is written back object for object as
    it was; and a data file loads exactly when every object in it has the
    two keys "username" and "category" and no other. *)
Theorem data_file_round_trip (bl : Blacklist) (data : list (gmap string string)) :
  load_data (dump_data bl) = Some (full_blacklist bl) ∧
  (∀ l, load_data data = Some l → to_json <$> l = data) ∧
  (is_Some (load_data data) ↔
   Forall (λ x, dom x = {["username"; "category"]}) data).
Proof.
  unfold load_data, dump_data. split_and!.
  - apply mapM_fmap_Some, kwargs_to_json.
  - intros l Hl. eapply mapM_fmap_Some_inv; [done|]. apply kwargs_Some.
  - rewrite mapM_is_Some. apply Forall_proper; [|done].
    intros x. apply kwargs_is_Some.
Qed.

Lemma data_file_round_trip_witness :
  to_json <$> [mkBlacklistEntry "Bob" "Scam"] = dump_data only_bob.
Proof.
  apply (data_file_round_trip only_bob (dump_data only_bob)).
  apply (data_file_round_trip only_bob []).
Defined.

(** ** The spreadsheet import *)

Section import.
Implicit Types bl : Blacklist.
Implicit Types raw name cat : string.

(** What [import_line] does with a raw line. *)
Lemma import_line_shape raw bl :
  (Str.strip raw = "" ∧ import_line raw bl = (Return tt, bl)) ∨
  (Str.strip raw ≠ "" ∧ Str.contains (String "009" "") (Str.strip raw) = false ∧
   import_line raw bl = (Raise (unpack_error 1), bl)) ∨
  (∃ name cat,
     Str.rsplit1 "009" (Str.strip raw) = [name; cat] ∧
     Str.strip raw = name +:+ Str.tab +:+ cat ∧ name ≠ "" ∧ cat ≠ "" ∧
     Str.contains (String "009" "") cat = false ∧
     import_line raw bl = upsert_only name cat bl).
Proof.
  unfold import_line.
  destruct (Str.strip raw) as [|c0 s] eqn:Es; [by left|right].
  unfold Str.rsplit1.
  destruct (Str.rcut "009" (String c0 s)) as [[name cat]|] eqn:Ecut.
  - right. exists name, cat. rewrite <-Es in Ecut.
    pose proof (rcut_strip "009" raw name cat eq_refl Ecut) as [Hn Hc].
    apply rcut_Some in Ecut as [Heq Hnone]. rewrite Es in Heq.
    split_and!; [done..| |].
    + by apply rcut_None_contains.
    + by destruct name, cat.
  - left. split_and!; [done| |done]. by apply rcut_None_contains.
Qed.

End import.

(** X12.  How an import line is read.  A blank line is skipped.  A
    non-blank line without a tab raises the unpacking [ValueError] in
    the tuple assignment and leaves the object as it was.  Any other
    line is the username, a tab, the category, where the category is the
    non-empty text after the last tab and the username the non-empty text
    before it, and is upserted.  No line reaches the branch that raises
    "Unable to process input line."; a line starting with [#] is not a
    comment here. *)
Theorem import_line_parse (raw : string) (bl : Blacklist) :
  (Str.strip raw = "" → import_line raw bl = (Return tt, bl)) ∧
  (Str.strip raw ≠ "" →
   Str.contains (String "009" "") (Str.strip raw) = false →
   import_line raw bl =
     (Raise {| printed := "";
               raised := ValueError "not enough values to unpack (expected 2, got 1)" |},
      bl)) ∧
  (Str.contains (String "009" "") (Str.strip raw) = true →
   ∃ name cat,
     Str.strip raw = name +:+ Str.tab +:+ cat ∧ name ≠ "" ∧ cat ≠ "" ∧
     Str.contains (String "009" "") cat = false ∧
     import_line raw bl = upsert_only name cat bl) ∧
  (∀ f bl', import_line raw bl = (Raise f, bl') →
     bl' = bl ∧ raised f ≠ RuntimeError "Unable to process input line.").
Proof.
  destruct (import_line_shape raw bl)
    as [[Hb Heq]|[(Hne & Htab & Heq)|(name & cat & Hparts & Hline & Hn & Hc & Hcat & Heq)]].
  - split_and!; [done|done|by rewrite Hb|].
    intros f bl' Hrun. congruence.
  - split_and!; [done|done|congruence|].
    intros f bl' Hrun. rewrite Heq in Hrun. by simplify_eq.
  - assert (Hhas : Str.contains (String "009" "") (Str.strip raw) = true).
    { destruct (Str.contains _ (Str.strip raw)) eqn:E; [done|].
      apply rcut_None_contains in E. unfold Str.rsplit1 in Hparts.
      by rewrite E in Hparts. }
    split_and!.
    + intros Hb. rewrite Hb in Hhas. done.
    + congruence.
    + intros _. by exists name, cat.
    + intros f bl' Hrun. rewrite Heq in Hrun.
      unfold upsert_only, mbind, M_bind in Hrun.
      destruct (get_or_append name cat bl) as [[i|f'] bl1] eqn:Eg; [done|].
      apply get_or_append_frame in Eg as (_ & _ & _ & j & ? & _). done.
Qed.

Lemma import_line_parse_witness :
  import_line "  " only_bob = (Return tt, only_bob) ∧
  import_line "# Bob Scam" only_bob =
    (Raise {| printed := "";
              raised := ValueError "not enough values to unpack (expected 2, got 1)" |},
     only_bob) ∧
  (∃ name cat,
     Str.strip ("Space Man" +:+ Str.tab +:+ "RMT" +:+ Str.nl) = name +:+ Str.tab +:+ cat ∧
     name ≠ "" ∧ cat ≠ "" ∧ Str.contains (String "009" "") cat = false ∧
     import_line ("Space Man" +:+ Str.tab +:+ "RMT" +:+ Str.nl) only_bob
     = upsert_only name cat only_bob).
Proof.
  split_and!.
  - by apply (import_line_parse "  " only_bob).
  - by apply (import_line_parse "# Bob Scam" only_bob).
  - by apply (import_line_parse ("Space Man" +:+ Str.tab +:+ "RMT" +:+ Str.nl) only_bob).
Defined.

Section import_more.
Implicit Types bl : Blacklist.
Implicit Types raw name cat : string.

Lemma import_lines_app pre rest bl :
  import_lines (pre ++ rest) bl =
  match import_lines pre bl with
  | (Return _, bl1) => import_lines rest bl1
  | (Raise f, bl1) => (Raise f, bl1)
  end.
Proof.
  revert bl. induction pre as [|raw pre IH]; intros bl; [done|].
  cbn [app import_lines]. unfold mbind, M_bind.
  destruct (import_line raw bl) as [[[]|f] bl1]; [|done]. apply IH.
Qed.

(** The effect of one import line on the store. *)
Lemma import_line_step raw bl res bl' :
  import_line raw bl = (res, bl') →
  (bl' = bl ∧ (res = Return tt → Str.strip raw = "")) ∨
  (∃ name cat i,
     Str.rsplit1 "009" (Str.strip raw) = [name; cat] ∧ name ≠ "" ∧
     res = Return tt ∧ get_or_append name cat bl = (Return i, bl')).
Proof.
  intros Hrun.
  destruct (import_line_shape raw bl)
    as [[Hb Heq]|[(Hne & Htab & Heq)|(name & cat & Hparts & Hline & Hn & Hc & Hcat & Heq)]];
    rewrite Heq in Hrun.
  - simplify_eq. by left.
  - simplify_eq. left. by split.
  - right. unfold upsert_only, mbind, M_bind, mret, M_ret in Hrun.
    destruct (get_or_append name cat bl) as [[i|f'] bl1] eqn:Eg; simplify_eq.
    + by exists name, cat, i.
    + apply get_or_append_frame in Eg as (_ & _ & _ & j & ? & _). done.
Qed.

Lemma get_or_append_lists name cat bl res bl' :
  get_or_append name cat bl = (res, bl') →
  current_update bl' = current_update bl ∧
  previous_update bl' = previous_update bl ∧
  usernames bl `prefix_of` usernames bl'.
Proof.
  intros Hrun. pose proof Hrun as (Hc & Hp & _ & i & -> & _)%get_or_append_frame.
  split_and!; [done..|]. unfold get_or_append, usernames in *.
  destruct (get_entry name bl) as [[j e]|] eqn:E; simplify_eq/=.
  - apply get_entry_Some in E as (Hi & _ & _).
    rewrite list_fmap_insert. simpl. rewrite list_insert_id; [done|].
    by rewrite list_lookup_fmap, Hi.
  - rewrite fmap_app. by apply prefix_app_r.
Qed.

Lemma import_line_lists raw bl res bl' :
  import_line raw bl = (res, bl') →
  current_update bl' = current_update bl ∧
  previous_update bl' = previous_update bl ∧
  usernames bl `prefix_of` usernames bl'.
Proof.
  intros [[-> _]|(name & cat & i & _ & _ & _ & Hg)]%import_line_step; [done|].
  by eapply get_or_append_lists.
Qed.

Lemma import_lines_lists lines bl res bl' :
  import_lines lines bl = (res, bl') →
  current_update bl' = current_update bl ∧
  previous_update bl' = previous_update bl ∧
  usernames bl `prefix_of` usernames bl'.
Proof.
  revert bl. induction lines as [|raw lines IH]; intros bl Hrun.
  - cbv [import_lines mret M_ret] in Hrun. by simplify_eq.
  - cbn [import_lines] in Hrun. unfold mbind, M_bind in Hrun.
    destruct (import_line raw bl) as [[[]|f] bl1] eqn:Eline.
    + apply import_line_lists in Eline as (Hc & Hp & Hu).
      apply IH in Hrun as (Hc' & Hp' & Hu').
      split_and!; [congruence..|by etrans].
    + simplify_eq. by apply import_line_lists in Eline.
Qed.

End import_more.

(** X13.  What the import script leaves behind.  When the changelog
    fails, the script fails the same way and the data file is untouched.
    When the changelog succeeds and an import line fails, the script
    fails but the data file already holds the store as the changelog left
    it, without the imported lines.  When both succeed, the data file
    holds the final store; the import appends to the usernames the
    changelog left and records nothing in the epoch lists. *)
Theorem populate_main_outcome (data : list BlacklistEntry) (input sheet : list string) :
  (∀ f d, Blacklist_init data input = (Raise f, d) →
     populate_main data input sheet = (Raise f, data)) ∧
  (∀ blacklist d f bl',
     Blacklist_init data input = (Return blacklist, d) →
     import_lines sheet blacklist = (Raise f, bl') →
     populate_main data input sheet = (Raise f, full_blacklist blacklist)) ∧
  (∀ blacklist d bl',
     Blacklist_init data input = (Return blacklist, d) →
     import_lines sheet blacklist = (Return tt, bl') →
     populate_main data input sheet = (Return bl', full_blacklist bl') ∧
     usernames blacklist `prefix_of` usernames bl' ∧
     current_update bl' = current_update blacklist ∧
     previous_update bl' = previous_update blacklist).
Proof.
  unfold populate_main. split_and!.
  - intros f d Hinit. rewrite Hinit. f_equal.
    unfold Blacklist_init in Hinit.
    destruct (process_lines input "current" _) as [[t|f'] self']; by simplify_eq.
  - intros blacklist d f bl' Hinit Himp. rewrite Hinit, Himp. f_equal.
    unfold Blacklist_init in Hinit.
    destruct (process_lines input "current" _) as [[t|f'] self']; by simplify_eq.
  - intros blacklist d bl' Hinit Himp. rewrite Hinit, Himp. split; [done|].
    apply import_lines_lists in Himp as (? & ? & ?). by split_and!.
Qed.

Lemma populate_main_outcome_witness :
  populate_main [mkBlacklistEntry "Bob" "Scam"] ["Ghost -> Phantom"] []
  = (Raise (update_username_failure "Ghost" "Phantom"), [mkBlacklistEntry "Bob" "Scam"]) ∧
  populate_main [] ["Bob Scam"] ["Carol"]
  = (Raise (unpack_error 1), full_blacklist after_bob_scam) ∧
  populate_main [] ["Bob Scam"] ["Carol" +:+ Str.tab +:+ "RMT"]
  = (Return {| current_update := [StoreRef 0]; previous_update := [];
               full_blacklist :=
                 [mkBlacklistEntry "Bob" "Scam"; mkBlacklistEntry "Carol" "RMT"] |},
     [mkBlacklistEntry "Bob" "Scam"; mkBlacklistEntry "Carol" "RMT"]).
Proof.
  split_and!.
  - destruct (populate_main_outcome [mkBlacklistEntry "Bob" "Scam"]
                ["Ghost -> Phantom"] []) as (H & _ & _).
    by apply (H (update_username_failure "Ghost" "Phantom")
                [mkBlacklistEntry "Bob" "Scam"]).
  - destruct (populate_main_outcome [] ["Bob Scam"] ["Carol"]) as (_ & H & _).
    by apply (H after_bob_scam [mkBlacklistEntry "Bob" "Scam"] (unpack_error 1)
                after_bob_scam).
  - destruct (populate_main_outcome [] ["Bob Scam"] ["Carol" +:+ Str.tab +:+ "RMT"])
      as (_ & _ & H).
    by apply (H after_bob_scam [mkBlacklistEntry "Bob" "Scam"]
                {| current_update := [StoreRef 0]; previous_update := [];
                   full_blacklist :=
                     [mkBlacklistEntry "Bob" "Scam"; mkBlacklistEntry "Carol" "RMT"] |}).
Defined.

Section import_last.
Implicit Types bl : Blacklist.
Implicit Types raw name cat : string.

(** The import lines of [post] name other usernames than [name]. *)
Lemma import_lines_keep name post bl res bl' :
  Forall (λ r, ∀ n c, Str.rsplit1 "009" (Str.strip r) = [n; c] →
               Str.lower n ≠ Str.lower name) post →
  import_lines post bl = (res, bl') →
  get_entry name bl' = get_entry name bl.
Proof.
  intros Hall. revert bl. induction Hall as [|raw post Hraw _ IH]; intros bl Hrun.
  - cbv [import_lines mret M_ret] in Hrun. by simplify_eq.
  - cbn [import_lines] in Hrun. unfold mbind, M_bind in Hrun.
    destruct (import_line raw bl) as [[[]|f] bl1] eqn:Eline.
    + apply IH in Hrun. rewrite Hrun.
      apply import_line_step in Eline as [[-> _]|(n & c & i & Hparts & _ & _ & Hg)];
        [done|].
      pose proof (get_or_append_other n c name bl) as Hother.
      rewrite Hg in Hother. apply Hother. intros Heq. by apply (Hraw n c).
    + simplify_eq.
      apply import_line_step in Eline as [[-> _]|(n & c & i & _ & _ & ? & _)]; done.
Qed.

End import_last.

(** X14.  In an import the last line for a username decides its
    category: when the lines after [raw] name other usernames
    (case-insensitively) and the import succeeds, the store holds an
    entry for the username of [raw] with the category of [raw]. *)
Theorem import_last_line_wins (pre post : list string) (raw name cat : string)
    (bl bl' : Blacklist) :
  Str.rsplit1 "009" (Str.strip raw) = [name; cat] →
  Forall (λ r, ∀ n c, Str.rsplit1 "009" (Str.strip r) = [n; c] →
               Str.lower n ≠ Str.lower name) post →
  import_lines (pre ++ raw :: post) bl = (Return tt, bl') →
  ∃ i e, get_entry name bl' = Some (i, e) ∧ category e = cat.
Proof.
  intros Hparts Hpost Hrun. rewrite import_lines_app in Hrun.
  destruct (import_lines pre bl) as [[[]|f] bl1]; [|done].
  cbn [import_lines] in Hrun. unfold mbind, M_bind in Hrun.
  destruct (import_line raw bl1) as [[[]|f] bl2] eqn:Eline; [|done].
  apply (import_lines_keep name) in Hrun; [|done]. rewrite Hrun.
  apply import_line_step in Eline as [[_ Hb]|(n & c & i & Hparts' & _ & _ & Hg)].
  - rewrite (Hb eq_refl) in Hparts. done.
  - rewrite Hparts in Hparts'. simplify_eq.
    destruct (get_or_append_lookup n c bl1) as (j & e & _ & Hget & Hcat & _).
    rewrite Hg in Hget. by exists j, e.
Qed.

Lemma import_last_line_wins_witness :
  ∃ i e,
    get_entry "bob"
      (store_of [mkBlacklistEntry "Bob" "Other"; mkBlacklistEntry "Carol" "RMT"])
    = Some (i, e) ∧ category e = "Other".
Proof.
  apply (import_last_line_wins
           ["Bob" +:+ Str.tab +:+ "RMT"] ["Carol" +:+ Str.tab +:+ "RMT"]
           ("bob" +:+ Str.tab +:+ "Other") "bob" "Other" only_bob).
  - reflexivity.
  - apply Forall_cons; split; [|apply Forall_nil_2].
    intros n c Hnc. vm_compute in Hnc. by simplify_eq.
  - reflexivity.
Defined.

(** ** Roster documents *)

Section roster.
Implicit Types bl : Blacklist.
Implicit Types e : BlacklistEntry.

Lemma sorted_insert_str_Permutation {A} (key : A → string) (x : A) (l : list A) :
  sorted_insert_str key x l ≡ₚ x :: l.
Proof.
  induction l as [|y l IH]; simpl; [done|].
  destruct (String.leb (key x) (key y)); [done|].
  rewrite IH. apply Permutation_swap.
Qed.

Lemma sorted_str_Permutation {A} (key : A → string) (l : list A) :
  sorted_str key l ≡ₚ l.
Proof.
  induction l as [|x l IH]; simpl; [done|].
  by rewrite sorted_insert_str_Permutation, IH.
Qed.

Lemma sorted_insert_str_StronglySorted {A} (key : A → string) (x : A) (l : list A) :
  StronglySorted (λ a b, String.le (key a) (key b)) l →
  StronglySorted (λ a b, String.le (key a) (key b)) (sorted_insert_str key x l).
Proof.
  induction 1 as [|y l Hs IH Hall]; simpl.
  - by repeat constructor.
  - destruct (String.leb (key x) (key y)) eqn:E.
    + assert (Hxy : String.le (key x) (key y)) by (unfold String.le; by rewrite E).
      constructor; [by constructor|]. constructor; [done|].
      eapply Forall_impl; [exact Hall|]. intros z Hz. simpl in *. by etrans.
    + assert (Hyx : String.le (key y) (key x)).
      { destruct (total String.le (key x) (key y)) as [Hxy|]; [|done].
        unfold String.le in Hxy. by rewrite E in Hxy. }
      constructor; [done|]. rewrite sorted_insert_str_Permutation.
      by constructor.
Qed.

Lemma sorted_str_StronglySorted {A} (key : A → string) (l : list A) :
  StronglySorted (λ a b, String.le (key a) (key b)) (sorted_str key l).
Proof.
  induction l as [|x l IH]; simpl; [constructor|].
  by apply sorted_insert_str_StronglySorted.
Qed.

Lemma StronglySorted_filter {A} (R : relation A) (P : A → Prop)
    `{!∀ x, Decision (P x)} (l : list A) :
  StronglySorted R l → StronglySorted R (filter P l).
Proof.
  induction 1 as [|y l Hs IH Hall]; [constructor|].
  rewrite filter_cons. case_decide; [|done].
  constructor; [done|]. apply Forall_forall. intros z [_ Hz]%list_elem_of_filter.
  rewrite Forall_forall in Hall. by apply Hall.
Qed.

Lemma upper_char_not_nil (c : ascii) : upper_char c ≠ [].
Proof. unfold upper_char. by repeat case_match. Qed.

Lemma upper_nil (s : string) : upper s = [] ↔ s = "".
Proof.
  destruct s as [|c s]; [done|]. simpl. split; [|done].
  intros [H _]%app_eq_nil. by apply upper_char_not_nil in H.
Qed.

Lemma filter_letter_None r (l : list BlacklistEntry) :
  filter_letter r l = None ↔ ∃ e, e ∈ l ∧ username e = "".
Proof.
  induction l as [|x l IH]; simpl.
  - split; [done|]. by intros (e & He%elem_of_nil & _).
  - destruct (upper (username x)) as [|c cs] eqn:Eu.
    + split; [|done]. intros _. exists x. split; [apply list_elem_of_here|].
      by apply upper_nil.
    + destruct (filter_letter r l) as [rest|] eqn:Er; simpl.
      * split; [done|]. intros (e & [->|He]%elem_of_cons & Hname).
        -- apply upper_nil in Hname. congruence.
        -- assert (Some rest = None) by (apply IH; by exists e). done.
      * split; [|done]. intros _. destruct IH as [IH _].
        destruct (IH eq_refl) as (e & He & Hname). exists e.
        split; [by apply list_elem_of_further|done].
Qed.

Lemma filter_letter_Some r (l l' : list BlacklistEntry) :
  filter_letter r l = Some l' → l' = filter (first_upper_in r) l.
Proof.
  revert l'. induction l as [|x l IH]; intros l'; [by intros [= <-]|].
  cbn [filter_letter].
  destruct (upper (username x)) as [|c cs] eqn:Eu; [done|].
  destruct (filter_letter r l) as [rest|]; [|done]. simpl.
  intros [= <-]. rewrite filter_cons, (IH rest eq_refl).
  destruct (decide (c ∈ r)) as [Hc|Hc];
    destruct (decide (first_upper_in r x)) as [Hx|Hx]; try done;
    unfold first_upper_in in Hx; by rewrite Eu in Hx.
Qed.

Lemma range_char_elem_of (start stop : ascii) (c : N) :
  c ∈ range_char start stop ↔ (N_of_ascii start ≤ c ≤ N_of_ascii stop)%N.
Proof.
  unfold range_char, nat_of_ascii. rewrite list_elem_of_fmap. split.
  - intros (k & -> & Hk%elem_of_seq). lia.
  - intros Hc. exists (N.to_nat c). split; [lia|]. apply elem_of_seq. lia.
Qed.

End roster.

Section roster_entries.
Implicit Types bl : Blacklist.
Implicit Types e : BlacklistEntry.
Implicit Types doc : NormalEmbed.t.

(** The entries of a category in roster order. *)
Lemma category_entries (c : string) bl :
  let l := filter (λ x, category x = c)
             (sorted_str (λ x, Str.lower (username x)) (full_blacklist bl)) in
  l ≡ₚ filter (λ x, category x = c) (full_blacklist bl) ∧
  StronglySorted name_le l ∧
  ∀ e, e ∈ l ↔ e ∈ full_blacklist bl ∧ category e = c.
Proof.
  intros l. subst l. split_and!.
  - by rewrite sorted_str_Permutation.
  - apply StronglySorted_filter.
    apply (sorted_str_StronglySorted (λ x, Str.lower (username x))).
  - intros e. rewrite list_elem_of_filter, sorted_str_Permutation. tauto.
Qed.

Lemma get_entries_unfold doc (c : string) bl :
  NormalEmbed.category doc = Some c → c ≠ "" →
  get_entries doc bl =
  match NormalEmbed.letter_range doc with
  | Some (ch :: r) =>
      filter_letter (ch :: r)
        (filter (λ x, category x = c)
           (sorted_str (λ x, Str.lower (username x)) (full_blacklist bl)))
  | _ =>
      Some (filter (λ x, category x = c)
              (sorted_str (λ x, Str.lower (username x)) (full_blacklist bl)))
  end.
Proof. unfold get_entries. intros -> Hc. by destruct c. Qed.

Lemma get_entries_letters_None doc (c : string) (r : list N) bl :
  NormalEmbed.category doc = Some c → c ≠ "" →
  NormalEmbed.letter_range doc = Some r → r ≠ [] →
  get_entries doc bl = None ↔
  ∃ e, e ∈ full_blacklist bl ∧ category e = c ∧ username e = "".
Proof.
  intros Hcat Hc Hr Hne. rewrite (get_entries_unfold doc c bl Hcat Hc), Hr.
  destruct r as [|ch r]; [done|]. rewrite filter_letter_None.
  destruct (category_entries c bl) as (_ & _ & Hin).
  split; intros (e & He & Hname); exists e.
  - apply Hin in He. tauto.
  - split; [apply Hin|]; tauto.
Qed.

Lemma get_entries_letters_Some doc (c : string) (r : list N) bl
    (l : list BlacklistEntry) :
  NormalEmbed.category doc = Some c → c ≠ "" →
  NormalEmbed.letter_range doc = Some r → r ≠ [] →
  get_entries doc bl = Some l →
  StronglySorted name_le l ∧
  ∀ e, e ∈ l ↔ e ∈ full_blacklist bl ∧ category e = c ∧ first_upper_in r e.
Proof.
  intros Hcat Hc Hr Hne. rewrite (get_entries_unfold doc c bl Hcat Hc), Hr.
  destruct r as [|ch r]; [done|]. intros ->%filter_letter_Some.
  destruct (category_entries c bl) as (_ & Hs & Hin). split.
  - by apply StronglySorted_filter.
  - intros e. rewrite list_elem_of_filter, Hin. tauto.
Qed.

Lemma range_char_not_nil_AL : range_char "A" "L" ≠ [].
Proof. done. Qed.

Lemma range_char_not_nil_MZ : range_char "M" "Z" ≠ [].
Proof. done. Qed.

End roster_entries.

(** X15.  A roster document with a category and no letter range never
    fails; it lists exactly the entries of the store with that category,
    each as often as the store holds it, in ascending order of the
    lower-cased username. *)
Theorem get_entries_by_category (doc : NormalEmbed.t) (c : string) (bl : Blacklist) :
  NormalEmbed.category doc = Some c → c ≠ "" →
  NormalEmbed.letter_range doc = None →
  ∃ l, get_entries doc bl = Some l ∧
       l ≡ₚ filter (λ x, category x = c) (full_blacklist bl) ∧
       StronglySorted name_le l ∧
       ∀ e, e ∈ l ↔ e ∈ full_blacklist bl ∧ category e = c.
Proof.
  intros Hcat Hc Hr. rewrite (get_entries_unfold doc c bl Hcat Hc), Hr.
  eexists. split; [done|]. apply category_entries.
Qed.

Lemma get_entries_by_category_witness :
  ∃ l, get_entries ScamEmbed bob_robert = Some l ∧
       l ≡ₚ filter (λ x, category x = "Scam") (full_blacklist bob_robert) ∧
       StronglySorted name_le l ∧
       ∀ e, e ∈ l ↔ e ∈ full_blacklist bob_robert ∧ category e = "Scam".
Proof. by apply (get_entries_by_category ScamEmbed "Scam" bob_robert). Defined.

(** X16.  A roster document with a letter range fails, with the
    [IndexError] of indexing an empty string, exactly when the store
    holds an entry of its category with the empty username; entries of
    other categories with the empty username do no harm.  When it
    succeeds it lists, in ascending order of the lower-cased username,
    exactly the entries of its category whose upper-cased username starts
    with a letter of the range. *)
Theorem get_entries_letter_range (doc : NormalEmbed.t) (c : string) (r : list N)
    (bl : Blacklist) :
  NormalEmbed.category doc = Some c → c ≠ "" →
  NormalEmbed.letter_range doc = Some r → r ≠ [] →
  (get_entries doc bl = None ↔
   ∃ e, e ∈ full_blacklist bl ∧ category e = c ∧ username e = "") ∧
  (∀ l, get_entries doc bl = Some l →
        StronglySorted name_le l ∧
        ∀ e, e ∈ l ↔ e ∈ full_blacklist bl ∧ category e = c ∧ first_upper_in r e).
Proof.
  intros Hcat Hc Hr Hne. split.
  - by apply (get_entries_letters_None doc c r).
  - intros l. by apply (get_entries_letters_Some doc c r).
Qed.

Lemma get_entries_letter_range_witness :
  (get_entries RMTALEmbed (store_of [mkBlacklistEntry "" "RMT"]) = None ↔
   ∃ e, e ∈ full_blacklist (store_of [mkBlacklistEntry "" "RMT"]) ∧
        category e = "RMT" ∧ username e = "") ∧
  (∀ l, get_entries RMTALEmbed (store_of [mkBlacklistEntry "" "RMT"]) = Some l →
        StronglySorted name_le l ∧
        ∀ e, e ∈ l ↔ e ∈ full_blacklist (store_of [mkBlacklistEntry "" "RMT"]) ∧
                      category e = "RMT" ∧ first_upper_in (range_char "A" "L") e).
Proof.
  by apply (get_entries_letter_range RMTALEmbed "RMT" (range_char "A" "L")
              (store_of [mkBlacklistEntry "" "RMT"])).
Defined.

(** X17.  The two RMT documents split the RMT entries by first letter:
    no entry is in both, and an entry of the store is in one of them
    exactly when its category is "RMT" and its upper-cased username
    starts with one of the letters A to Z.  An RMT entry whose username
    starts with a digit or any other character is in neither. *)
Theorem rmt_halves_partition (bl : Blacklist) (l1 l2 : list BlacklistEntry) :
  get_entries RMTALEmbed bl = Some l1 →
  get_entries RMTMZEmbed bl = Some l2 →
  (∀ e, e ∈ l1 → e ∉ l2) ∧
  (∀ e, e ∈ l1 ∨ e ∈ l2 ↔
        e ∈ full_blacklist bl ∧ category e = "RMT" ∧
        ∃ ch, head (upper (username e)) = Some ch ∧ (65 ≤ ch ≤ 90)%N).
Proof.
  intros H1 H2.
  apply (get_entries_letters_Some RMTALEmbed "RMT" (range_char "A" "L")) in H1
    as [_ H1]; [|done..].
  apply (get_entries_letters_Some RMTMZEmbed "RMT" (range_char "M" "Z")) in H2
    as [_ H2]; [|done..].
  assert (Hfirst : ∀ start stop e,
    first_upper_in (range_char start stop) e ↔
    ∃ ch, head (upper (username e)) = Some ch ∧
          (N_of_ascii start ≤ ch ≤ N_of_ascii stop)%N).
  { intros start stop e. unfold first_upper_in.
    destruct (upper (username e)) as [|ch cs]; simpl.
    - split; [done|]. by intros (ch & ? & _).
    - rewrite range_char_elem_of. split; [by exists ch|].
      by intros (ch' & [= <-] & ?). }
  split.
  - intros e [_ [_ (ch & Hch & Hle)%Hfirst]]%H1 [_ [_ (ch' & Hch' & Hle')%Hfirst]]%H2.
    simplify_eq. simpl in *. lia.
  - intros e. rewrite H1, H2, !Hfirst. simpl. split.
    + intros [(? & ? & ch & ? & ?)|(? & ? & ch & ? & ?)];
        (split_and!; [done..|exists ch; split; [done|lia]]).
    + intros (? & ? & ch & ? & ?).
      destruct (decide (ch ≤ 76)%N); [left|right];
        (split_and!; [done..|exists ch; split; [done|lia]]).
Qed.

Lemma rmt_halves_partition_witness :
  mkBlacklistEntry "Al" "RMT" ∉ [mkBlacklistEntry "zanzibar" "RMT"].
Proof.
  apply (proj1 (rmt_halves_partition
           (store_of [mkBlacklistEntry "zanzibar" "RMT"; mkBlacklistEntry "9x" "RMT";
                      mkBlacklistEntry "Al" "RMT"])
           [mkBlacklistEntry "Al" "RMT"] [mkBlacklistEntry "zanzibar" "RMT"]
           eq_refl eq_refl)).
  apply list_elem_of_here.
Defined.

(** X18.  An entry is listed only in roster documents of its own
    category: whenever one of the six roster documents lists an entry,
    the store holds that entry, the document's category is the entry's,
    and that category is one of the five known ones.  Hence an entry
    with any other category, "scam" in lower case for one, is listed in
    no roster document. *)
Theorem roster_entry_category (bl : Blacklist) (doc : NormalEmbed.t)
    (l : list BlacklistEntry) (e : BlacklistEntry) :
  doc ∈ roster_documents →
  get_entries doc bl = Some l →
  e ∈ l →
  e ∈ full_blacklist bl ∧
  NormalEmbed.category doc = Some (category e) ∧
  category e ∈ ["Scam"; "RMT"; "GW2Exchange"; "Other"; "Unknown"].
Proof.
  unfold roster_documents. intros Hdoc Hget He.
  repeat (apply elem_of_cons in Hdoc as [->|Hdoc]); [..|by apply elem_of_nil in Hdoc].
  - rewrite (get_entries_unfold ScamEmbed "Scam") in Hget by done.
    simpl in Hget. simplify_eq.
    apply (category_entries "Scam" bl) in He as [? ->]. split_and!; [done..|].
    apply list_elem_of_here.
  - apply (get_entries_letters_Some RMTALEmbed "RMT" (range_char "A" "L")) in Hget
      as [_ Hin]; [|done..].
    apply Hin in He as (? & -> & _). split_and!; [done..|].
    apply list_elem_of_further, list_elem_of_here.
  - apply (get_entries_letters_Some RMTMZEmbed "RMT" (range_char "M" "Z")) in Hget
      as [_ Hin]; [|done..].
    apply Hin in He as (? & -> & _). split_and!; [done..|].
    apply list_elem_of_further, list_elem_of_here.
  - rewrite (get_entries_unfold ExchangeEmbed "GW2Exchange") in Hget by done.
    simpl in Hget. simplify_eq.
    apply (category_entries "GW2Exchange" bl) in He as [? ->]. split_and!; [done..|].
    do 2 apply list_elem_of_further. apply list_elem_of_here.
  - rewrite (get_entries_unfold OtherEmbed "Other") in Hget by done.
    simpl in Hget. simplify_eq.
    apply (category_entries "Other" bl) in He as [? ->]. split_and!; [done..|].
    do 3 apply list_elem_of_further. apply list_elem_of_here.
  - rewrite (get_entries_unfold UnknownEmbed "Unknown") in Hget by done.
    simpl in Hget. simplify_eq.
    apply (category_entries "Unknown" bl) in He as [? ->]. split_and!; [done..|].
    do 4 apply list_elem_of_further. apply list_elem_of_here.
Qed.

Lemma roster_entry_category_witness :
  mkBlacklistEntry "Bob" "Scam" ∈ full_blacklist bob_robert ∧
  NormalEmbed.category ScamEmbed = Some "Scam" ∧
  "Scam" ∈ ["Scam"; "RMT"; "GW2Exchange"; "Other"; "Unknown"].
Proof.
  apply (roster_entry_category bob_robert ScamEmbed [mkBlacklistEntry "Bob" "Scam"]
           (mkBlacklistEntry "Bob" "Scam")).
  - apply list_elem_of_here.
  - reflexivity.
  - apply list_elem_of_here.
Defined.

(** X19.  On a store without empty usernames every roster document
    builds; so after [Blacklist()] has succeeded on a data file without
    empty usernames, whatever the changelog, none of the six roster
    documents fails. *)
Theorem roster_documents_build (data : list BlacklistEntry) (input : list string)
    (self : Blacklist) (data' : list BlacklistEntry) (doc : NormalEmbed.t) :
  Forall (λ e, username e ≠ "") data →
  Blacklist_init data input = (Return self, data') →
  doc ∈ roster_documents →
  is_Some (get_entries doc self).
Proof.
  intros Hall Hinit Hdoc.
  assert (Hself : no_empty_username self).
  { unfold Blacklist_init in Hinit. fold (store_of data) in Hinit.
    destruct (process_lines input "current" (store_of data)) as [[t|f] self'] eqn:E;
      simplify_eq.
    by apply process_lines_no_empty in E. }
  assert (Hletters : ∀ d r, NormalEmbed.category d = Some "RMT" →
            NormalEmbed.letter_range d = Some r → r ≠ [] → is_Some (get_entries d self)).
  { intros d r Hc Hr Hne. destruct (get_entries d self) as [l|] eqn:E; [by eexists|].
    apply (get_entries_letters_None d "RMT" r) in E as (e & He & _ & Hname);
      [|done..].
    unfold no_empty_username in Hself. rewrite Forall_forall in Hself.
    by destruct (Hself e He). }
  unfold roster_documents in Hdoc.
  repeat (apply elem_of_cons in Hdoc as [->|Hdoc]); [..|by apply elem_of_nil in Hdoc].
  - by rewrite (get_entries_unfold ScamEmbed "Scam").
  - by apply (Hletters RMTALEmbed (range_char "A" "L")).
  - by apply (Hletters RMTMZEmbed (range_char "M" "Z")).
  - by rewrite (get_entries_unfold ExchangeEmbed "GW2Exchange").
  - by rewrite (get_entries_unfold OtherEmbed "Other").
  - by rewrite (get_entries_unfold UnknownEmbed "Unknown").
Qed.

Lemma roster_documents_build_witness :
  is_Some (get_entries RMTMZEmbed after_bob_robert).
Proof.
  apply (roster_documents_build [] ["Bob Scam"; "Bob -> Robert"] after_bob_robert
           [mkBlacklistEntry "Robert" "Scam"] RMTMZEmbed).
  - apply Forall_nil_2.
  - reflexivity.
  - do 2 apply list_elem_of_further. apply list_elem_of_here.
Defined.

(** X20.  The emphasis follows an entry through its renames.  A store
    entry whose upsert was recorded in the current epoch is rendered in
    bold under the username it has now, also when a later directive
    renamed it; one recorded in the previous epoch only, with no current
    record showing its username, is rendered in italics. *)
Theorem recorded_entry_emphasis (bl : Blacklist) (i : nat) (e : BlacklistEntry) :
  full_blacklist bl !! i = Some e →
  (StoreRef i ∈ current_update bl →
     format_username (username e) bl
     = Str.nl +:+ "**" +:+ username e +:+ "**" +:+ Str.nl) ∧
  (StoreRef i ∈ previous_update bl →
   ¬ in_epoch bl (username e) (current_update bl) →
     format_username (username e) bl
     = Str.nl +:+ "*" +:+ username e +:+ "*" +:+ Str.nl).
Proof.
  intros Hi.
  assert (Hshow : ref_same_name bl (username e) (StoreRef i)).
  { unfold ref_same_name, same_name, observe, deref. by rewrite Hi. }
  unfold format_username, get_entry_from_current, get_entry_from_previous. split.
  - intros Hcur.
    destruct (epoch_find_Some bl (username e) (current_update bl)) as [r ->]; [|done].
    by exists (StoreRef i).
  - intros Hprev Hno. rewrite (epoch_find_None _ _ _ Hno).
    destruct (epoch_find_Some bl (username e) (previous_update bl)) as [r ->]; [|done].
    by exists (StoreRef i).
Qed.

Lemma recorded_entry_emphasis_witness :
  format_username "Robert" after_bob_robert
  = Str.nl +:+ "**" +:+ "Robert" +:+ "**" +:+ Str.nl.
Proof.
  apply (recorded_entry_emphasis after_bob_robert 0 (mkBlacklistEntry "Robert" "Scam"));
    [reflexivity|apply list_elem_of_here].
Defined.

Section new_embed.

Lemma existsb_is_rename (l : list Ref) :
  existsb is_rename l = true ↔ ∃ r, Fresh r ∈ l.
Proof.
  rewrite existsb_exists. split.
  - intros ([i|r] & Hin%list_elem_of_In & Hr); [done|by exists r].
  - intros (r & Hin). exists (Fresh r). split; [by apply list_elem_of_In|done].
Qed.

End new_embed.

(** X21.  The display mode of a block agrees with its lines: the mode
    is "ini" exactly when [get_names] writes a rename-annotated line for
    the same epoch list, that is when the list holds a rename record, and
    "fix" otherwise. *)
Theorem get_mode_agrees_with_names (bl : Blacklist) (use_list : list Ref) :
  (get_mode use_list = "ini" ↔ ∃ r, Renamed r ∈ names_order bl use_list) ∧
  (get_mode use_list = "fix" ↔ ¬ ∃ r, Renamed r ∈ names_order bl use_list) ∧
  ((∃ r, Renamed r ∈ names_order bl use_list) ↔ ∃ r, Fresh r ∈ use_list).
Proof.
  assert (Hnames : (∃ r, Renamed r ∈ names_order bl use_list) ↔ ∃ r, Fresh r ∈ use_list).
  { unfold names_order. split; intros [r Hr]; exists r.
    - rewrite sorted_Permutation in Hr.
      apply list_elem_of_fmap in Hr as ([i|r'] & Hobs & Hin); [done|].
      simpl in Hobs. by simplify_eq.
    - rewrite sorted_Permutation. apply list_elem_of_fmap. by exists (Fresh r). }
  rewrite Hnames, <-existsb_is_rename. unfold get_mode.
  destruct (existsb is_rename use_list); split_and!; split; intros H;
    try done; try (by destruct H).
Qed.

Lemma get_mode_agrees_with_names_witness :
  get_mode (current_update after_bob_robert) = "ini" ∧
  get_mode (current_update after_bob_scam) = "fix".
Proof.
  split.
  - apply (get_mode_agrees_with_names after_bob_robert (current_update after_bob_robert)).
    exists {| base := mkBlacklistEntry "Robert" "Scam"; old_username := "Bob" |}.
    apply list_elem_of_further, list_elem_of_here.
  - apply (get_mode_agrees_with_names after_bob_scam (current_update after_bob_scam)).
    intros [r Hr]. cbn in Hr. apply list_elem_of_singleton in Hr. done.
Defined.

(** X22.  The order of a block is stable: among the records of one sort
    key, [get_names] keeps the order in which the changelog recorded
    them. *)
Theorem names_order_stable (bl : Blacklist) (use_list : list Ref) (k : Z) :
  filter (λ o, sortkey o = k) (names_order bl use_list)
  = filter (λ o, sortkey o = k) (observe bl <$> use_list).
Proof.
  unfold names_order.
  induction (observe bl <$> use_list) as [|o l IH]; [done|].
  cbn [sorted]. rewrite sorted_insert_stable by apply sorted_StronglySorted.
  by rewrite !filter_cons, IH.
Qed.

Section report_text.
Implicit Types s t sub : string.

Lemma prefix_append s t : String.prefix s (s +:+ t) = true.
Proof.
  induction s as [|c s IH]; [by destruct t|].
  rewrite append_cons, prefix_cons. by destruct (ascii_dec c c).
Qed.

Lemma contains_here sub t : Str.contains sub (sub +:+ t) = true.
Proof.
  destruct (sub +:+ t) as [|c u] eqn:E.
  - apply append_nil_inv in E as [-> ->]. done.
  - rewrite contains_cons, <-E, prefix_append. done.
Qed.

Lemma contains_append_r sub s t :
  Str.contains sub t = true → Str.contains sub (s +:+ t) = true.
Proof.
  intros Ht. induction s as [|c s IH]; [done|].
  rewrite append_cons, contains_cons, IH. apply orb_true_r.
Qed.

End report_text.

(** X23.  The referential error names both usernames: when a rename
    raises, the exception is the [RuntimeError] "Unable to process
    username change." and the text printed before it holds [old] and
    [new] as given. *)
Theorem update_username_error_report (old new : string) (bl : Blacklist)
    (f : Failure) (bl' : Blacklist) :
  update_username old new bl = (Raise f, bl') →
  raised f = RuntimeError "Unable to process username change." ∧
  Str.contains old (printed f) = true ∧
  Str.contains new (printed f) = true.
Proof.
  intros (_ & -> & _)%update_username_Raise.
  unfold update_username_failure. cbn [raised printed]. split_and!.
  - done.
  - apply contains_append_r, contains_here.
  - do 3 apply contains_append_r. apply contains_here.
Qed.

Lemma update_username_error_report_witness :
  Str.contains "Ghost" (printed (update_username_failure "Ghost" "Phantom")) = true ∧
  Str.contains "Phantom" (printed (update_username_failure "Ghost" "Phantom")) = true.
Proof.
  apply (update_username_error_report "Ghost" "Phantom" only_bob
           (update_username_failure "Ghost" "Phantom") only_bob).
  reflexivity.
Defined.
